(** * Image resizer: the size calculator, file selection and item processing

    A shallow embedding of [resize.py] (class [ImageResizer]).

    Python numbers are modelled as the interpreter has them: [int] is an
    unbounded integer ([Z]); [float] is an IEEE-754 binary64 value, taken
    from the Standard Library's executable specification [SpecFloat]
    (precision 53, maximal exponent 1024, round to nearest, ties to even).
    Exceptions are values of [exn] carried by the [result] type. *)

From Stdlib Require Import ZArith List Bool Lia String Ascii Sorted.
From Stdlib Require Import Floats.SpecFloat Floats.PrimFloat Floats.FloatOps.
From Stdlib Require Import Uint63.
Import ListNotations.

Local Open Scope Z_scope.

(** ** Exceptions and results *)

Inductive exn : Type :=
| ZeroDivisionError
| OverflowError
| ValueError
| RequestException
| OSError
| UnicodeEncodeError.

Inductive result (A : Type) : Type :=
| Ok (a : A)
| Raise (e : exn).

Arguments Ok {A} a.
Arguments Raise {A} e.

Definition bind {A B : Type} (r : result A) (k : A -> result B) : result B :=
  match r with
  | Ok a => k a
  | Raise e => Raise e
  end.

Notation "x <- r ;; k" := (bind r (fun x => k))
  (at level 61, r at next level, right associativity).

(** ** Python floats (binary64) *)

Module PyFloat.

Definition prec : Z := 53.
Definition emax : Z := 1024.

Definition float : Type := spec_float.

(** [float(n)] for an [int]: correctly rounded, [OverflowError] when the
    integer is too large for a double. *)
Definition of_int (n : Z) : result float :=
  match binary_normalize prec emax n 0 false with
  | S754_infinity _ => Raise OverflowError
  | f => Ok f
  end.

(** [a / b] on two [int]s (true division): the correctly rounded quotient;
    [ZeroDivisionError] for a zero divisor, [OverflowError] when the
    quotient is too large for a double. *)
Definition int_truediv (a b : Z) : result float :=
  match b with
  | Z0 => Raise ZeroDivisionError
  | _ =>
      match a with
      | Z0 => Ok (S754_zero (b <? 0))
      | _ =>
          match SFdiv prec emax
                  (S754_finite (a <? 0) (Z.to_pos (Z.abs a)) 0)
                  (S754_finite (b <? 0) (Z.to_pos (Z.abs b)) 0) with
          | S754_infinity _ => Raise OverflowError
          | f => Ok f
          end
      end
  end.

(** [n * x] for an [int] [n] and a [float] [x]: the integer is converted
    first, then the doubles are multiplied (overflow gives an infinity). *)
Definition int_mul (n : Z) (x : float) : result float :=
  fn <- of_int n ;;
  Ok (SFmul prec emax fn x).

(** [int(x)]: truncation toward zero; infinities and NaN raise. *)
Definition to_int (x : float) : result Z :=
  match x with
  | S754_zero _ => Ok 0
  | S754_infinity _ => Raise OverflowError
  | S754_nan => Raise ValueError
  | S754_finite s m e =>
      Ok (cond_Zopp s
            (match e with
             | Z0 => Zpos m
             | Zpos p => Z.shiftl (Zpos m) e
             | Zneg p => Z.shiftr (Zpos m) (Zpos p)
             end))
  end.

(** [bool(x)]: every float but the two zeros is true. *)
Definition truthy (x : float) : bool :=
  match x with
  | S754_zero _ => false
  | _ => true
  end.

(** [min(a, b)] on two floats: [b] when [b < a], else [a]. *)
Definition min (a b : float) : float :=
  if SFltb b a then b else a.

End PyFloat.

(** ** The machine's doubles

    The same operations on the primitive doubles of the machine, which are
    what the interpreter computes with; they are used only to test the
    definitions above. *)

Module Machine.

Definition of_small_int (n : Z) : PrimFloat.float :=
  PrimFloat.of_uint63 (Uint63.of_Z n).

Definition truediv (a b : Z) : spec_float :=
  Prim2SF (PrimFloat.div (of_small_int a) (of_small_int b)).

Definition mul (n : Z) (x : spec_float) : spec_float :=
  Prim2SF (PrimFloat.mul (of_small_int n) (SF2Prim x)).

Definition same (r : result PyFloat.float) (x : spec_float) : bool :=
  match r with
  | Ok f => SFeqb f x
  | Raise _ => false
  end.

Fixpoint upto (n : nat) (k : Z) : list Z :=
  match n with
  | O => []
  | S n' => k :: upto n' (k + 1)
  end.

(** The quotient [a / b] and the product [n * (a / b)] agree with the
    machine. *)
Definition agree (n a b : Z) : bool :=
  same (PyFloat.int_truediv a b) (truediv a b)
  && match PyFloat.int_truediv a b with
     | Ok x => same (PyFloat.int_mul n x) (mul n x)
     | Raise _ => false
     end.

End Machine.

(** ** The arguments of the size calculator *)

(** [scale] is a number when it is given: an [int] or a [float]. *)
Inductive number : Type :=
| PyInt (n : Z)
| PyFlt (x : PyFloat.float).

Definition number_truthy (s : number) : bool :=
  match s with
  | PyInt n => negb (n =? 0)
  | PyFlt x => PyFloat.truthy x
  end.

(** A scale in the documented domain: a positive number. *)
Definition number_positive (s : number) : bool :=
  match s with
  | PyInt n => (0 <? n)%Z
  | PyFlt (S754_finite false _ _) => true
  | PyFlt _ => false
  end.

(** The value of an optional argument when it counts as true in an [if]:
    [None] and zero do not. *)
Definition given_number (scale : option number) : option number :=
  match scale with
  | Some s => if number_truthy s then Some s else None
  | None => None
  end.

Definition given_int (a : option Z) : option Z :=
  match a with
  | Some n => if n =? 0 then None else Some n
  | None => None
  end.

(** [int(n * scale)] for an [int] [n]: an [int] scale multiplies exactly, a
    [float] scale goes through the double product. *)
Definition int_of_scaled (n : Z) (scale : number) : result Z :=
  match scale with
  | PyInt k => Ok (n * k)
  | PyFlt x => p <- PyFloat.int_mul n x ;; PyFloat.to_int p
  end.

(** [int(n * ratio)] for a float [ratio]. *)
Definition int_of_ratio (n : Z) (ratio : PyFloat.float) : result Z :=
  p <- PyFloat.int_mul n ratio ;; PyFloat.to_int p.

Definition size : Type := (Z * Z)%type.

(** ** [ImageResizer._calculate_size] *)

Definition _calculate_size (original_size : size)
    (width height : option Z) (scale : option number)
    (maintain_aspect : bool) : result size :=
  let '(orig_w, orig_h) := original_size in
  match given_number scale with
  | Some s =>
      nw <- int_of_scaled orig_w s ;;
      nh <- int_of_scaled orig_h s ;;
      Ok (nw, nh)
  | None =>
      match given_int width, given_int height with
      | Some W, Some H =>
          if maintain_aspect then
            rw <- PyFloat.int_truediv W orig_w ;;
            rh <- PyFloat.int_truediv H orig_h ;;
            let ratio := PyFloat.min rw rh in
            nw <- int_of_ratio orig_w ratio ;;
            nh <- int_of_ratio orig_h ratio ;;
            Ok (nw, nh)
          else Ok (W, H)
      | Some W, None =>
          ratio <- PyFloat.int_truediv W orig_w ;;
          nh <- int_of_ratio orig_h ratio ;;
          Ok (W, nh)
      | None, Some H =>
          ratio <- PyFloat.int_truediv H orig_h ;;
          nw <- int_of_ratio orig_w ratio ;;
          Ok (nw, H)
      | None, None => Ok original_size
      end
  end.

(** ** The sizing policies in the specification's words

    The specification lists four policies and a fall-back, in a fixed order
    of priority; the first one whose parameters are supplied is the effective
    one.  A parameter is supplied when it is given and not zero. *)

Inductive policy : Type :=
| ByScale (s : number)
| ByBox (W H : Z)
| ByWidth (W : Z)
| ByHeight (H : Z)
| Unchanged.

Definition scale_policy (scale : option number) : option policy :=
  option_map ByScale (given_number scale).

Definition box_policy (width height : option Z) : option policy :=
  match given_int width, given_int height with
  | Some W, Some H => Some (ByBox W H)
  | _, _ => None
  end.

Definition width_policy (width : option Z) : option policy :=
  option_map ByWidth (given_int width).

Definition height_policy (height : option Z) : option policy :=
  option_map ByHeight (given_int height).

Fixpoint first_supplied (candidates : list (option policy)) : policy :=
  match candidates with
  | [] => Unchanged
  | Some p :: _ => p
  | None :: rest => first_supplied rest
  end.

Definition effective_policy (width height : option Z)
    (scale : option number) : policy :=
  first_supplied
    [scale_policy scale; box_policy width height;
     width_policy width; height_policy height].

(** What each policy computes, from the policy's own parameters only. *)
Definition apply_policy (p : policy) (original_size : size)
    (maintain_aspect : bool) : result size :=
  let '(orig_w, orig_h) := original_size in
  match p with
  | ByScale s =>
      nw <- int_of_scaled orig_w s ;;
      nh <- int_of_scaled orig_h s ;;
      Ok (nw, nh)
  | ByBox W H =>
      if maintain_aspect then
        rw <- PyFloat.int_truediv W orig_w ;;
        rh <- PyFloat.int_truediv H orig_h ;;
        nw <- int_of_ratio orig_w (PyFloat.min rw rh) ;;
        nh <- int_of_ratio orig_h (PyFloat.min rw rh) ;;
        Ok (nw, nh)
      else Ok (W, H)
  | ByWidth W =>
      ratio <- PyFloat.int_truediv W orig_w ;;
      nh <- int_of_ratio orig_h ratio ;;
      Ok (W, nh)
  | ByHeight H =>
      ratio <- PyFloat.int_truediv H orig_h ;;
      nw <- int_of_ratio orig_w ratio ;;
      Ok (nw, H)
  | Unchanged => Ok original_size
  end.

(** A parameter is supplied, in the specification's words, when it is given
    and is not zero (for a float scale: neither of the two zeros); it is
    absent otherwise.  These are written on the arguments themselves, not
    through the tests of the calculator. *)
Definition supplied_int (a : option Z) (n : Z) : Prop :=
  a = Some n /\ n <> 0.

Definition absent_int (a : option Z) : Prop :=
  a = None \/ a = Some 0.

Definition supplied_number (a : option number) (s : number) : Prop :=
  a = Some s /\ s <> PyInt 0
  /\ forall negative : bool, s <> PyFlt (S754_zero negative).

Definition absent_number (a : option number) : Prop :=
  a = None \/ a = Some (PyInt 0)
  \/ exists negative : bool, a = Some (PyFlt (S754_zero negative)).



(** ** Strings and paths

    Python strings are modelled as byte strings; [str.lower] and [str.upper]
    act on the ASCII letters. *)

Local Open Scope string_scope.

Definition is_upper (c : ascii) : bool :=
  let n := nat_of_ascii c in (65 <=? n)%nat && (n <=? 90)%nat.

Definition is_lower (c : ascii) : bool :=
  let n := nat_of_ascii c in (97 <=? n)%nat && (n <=? 122)%nat.

Definition lower_char (c : ascii) : ascii :=
  if is_upper c then ascii_of_nat (nat_of_ascii c + 32) else c.

Definition upper_char (c : ascii) : ascii :=
  if is_lower c then ascii_of_nat (nat_of_ascii c - 32) else c.

Fixpoint map_string (f : ascii -> ascii) (s : string) : string :=
  match s with
  | EmptyString => EmptyString
  | String c r => String (f c) (map_string f r)
  end.

Definition lower (s : string) : string := map_string lower_char s.
Definition upper (s : string) : string := map_string upper_char s.

(** [s.endswith(suffix)]: some tail of [s] is [suffix]. *)
Fixpoint endswith (s suffix : string) : bool :=
  (s =? suffix) ||
  match s with
  | EmptyString => false
  | String _ r => endswith r suffix
  end.

(** [s.split(sep)] for a one-character separator. *)
Fixpoint split_on (sep : ascii) (s : string) : list string :=
  match s with
  | EmptyString => [EmptyString]
  | String c r =>
      if Ascii.eqb c sep then EmptyString :: split_on sep r
      else match split_on sep r with
           | [] => [String c EmptyString]
           | x :: xs => String c x :: xs
           end
  end.

(** The text before and after the last dot of [s], when it has one. *)
Fixpoint rsplit_dot (s : string) : option (string * string) :=
  match s with
  | EmptyString => None
  | String c r =>
      match rsplit_dot r with
      | Some (a, b) => Some (String c a, b)
      | None => if Ascii.eqb c "." then Some (EmptyString, r) else None
      end
  end.

(** [c in s] for a character [c]. *)
Fixpoint contains_char (c : ascii) (s : string) : bool :=
  match s with
  | EmptyString => false
  | String d r => Ascii.eqb d c || contains_char c r
  end.

(** A pure POSIX path: whether it is rooted, and its components.  Empty
    components and ["."] are dropped when a string is parsed. *)
Record Path : Type := { rooted : bool; parts : list string }.

Definition is_component (x : string) : bool :=
  negb (x =? "") && negb (x =? ".").

Definition parse_path (s : string) : Path :=
  {| rooted := prefix "/" s;
     parts := filter is_component (split_on "/" s) |}.

(** [Path.name]: the last component, or the empty string. *)
Definition path_name (p : Path) : string := last (parts p) "".

(** [Path.stem]: the name without its suffix; the suffix starts at the last
    dot, unless that dot is the first or the last character of the name. *)
Definition stem_of_name (name : string) : string :=
  match rsplit_dot name with
  | Some (a, b) =>
      if (a =? "") || (b =? "") then name else a
  | None => name
  end.

Definition path_stem (p : Path) : string := stem_of_name (path_name p).

(** [folder / name]. *)
Definition joinpath (folder : Path) (name : string) : Path :=
  let q := parse_path name in
  if rooted q then q
  else {| rooted := rooted folder; parts := parts folder ++ parts q |}.

(** ** The allow-list and the selection of files

    [SUPPORTED_FORMATS] is a set in the source; its elements are taken here
    in the order they are written, and the final sort makes the order of the
    patterns immaterial. *)

Definition SUPPORTED_FORMATS : list string :=
  [".jpg"; ".jpeg"; ".png"; ".bmp"; ".gif"; ".tiff"; ".webp"].

(** A name written with ASCII characters only. *)
Definition is_ascii_char (c : ascii) : bool := (nat_of_ascii c <? 128)%nat.

Fixpoint is_ascii_name (s : string) : bool :=
  match s with
  | EmptyString => true
  | String c r => is_ascii_char c && is_ascii_name r
  end.

Definition ascii_names (entries : list string) : bool :=
  forallb is_ascii_name entries.

(** How the platform compares names: as they are where names are matched
    with regard to case (POSIX), without regard to case otherwise (Windows).
    On names and patterns written in ASCII, matching without regard to case
    is the comparison of the lower-cased forms, and that is what the second
    branch is; it stands for the platform on such names only.  Outside
    ASCII the platform has a case rule of its own ([re.IGNORECASE],
    [str.lower]), which these byte strings do not have: what is stated of
    [case_sensitive = false] is stated of folders whose names are ASCII. *)
Definition normcase (case_sensitive : bool) (s : string) : string :=
  if case_sensitive then s else lower s.

(** [folder.glob("*" + ext)] over the names of the folder's entries: the
    star matches any text, the rest of the pattern is literal. *)
Definition glob_star (case_sensitive : bool) (entries : list string)
    (ext : string) : list string :=
  filter (fun name =>
            endswith (normcase case_sensitive name)
                     (normcase case_sensitive ext))
         entries.

(** [sorted]: a stable insertion sort on the compared form of the names. *)
Fixpoint insert_sorted (case_sensitive : bool) (x : string)
    (l : list string) : list string :=
  match l with
  | [] => [x]
  | y :: r =>
      if String.ltb (normcase case_sensitive x) (normcase case_sensitive y)
      then x :: y :: r
      else y :: insert_sorted case_sensitive x r
  end.

Definition sorted (case_sensitive : bool) (l : list string) : list string :=
  fold_right (fun x acc => insert_sorted case_sensitive x acc) [] (rev l).

(** The order the names are sorted by. *)
Definition name_le (case_sensitive : bool) (x y : string) : Prop :=
  String.ltb (normcase case_sensitive y) (normcase case_sensitive x) = false.

(** [ImageResizer._get_images], on the names of the entries of [folder]. *)
Definition _get_images (case_sensitive : bool) (entries : list string)
    : list string :=
  sorted case_sensitive
    (flat_map (fun ext =>
                 (glob_star case_sensitive entries ext
                  ++ glob_star case_sensitive entries (upper ext))%list)
              SUPPORTED_FORMATS).

(** A name matches the allow-list case-insensitively:
    [any(name.lower().endswith(ext) for ext in SUPPORTED_FORMATS)]. *)
Definition has_supported_extension (name : string) : bool :=
  existsb (fun ext => endswith (lower name) ext) SUPPORTED_FORMATS.

(** ** Output file names *)

(** The truth value of an optional string: [None] and [""] are false. *)
Definition given_string (a : option string) : option string :=
  match a with
  | Some x => if x =? "" then None else Some x
  | None => None
  end.

(** The name derived from the URL: its last path segment, a generic name
    when there is none, and [".jpg"] appended unless the name already ends
    with a supported extension. *)
Definition derived_filename (url : string) : string :=
  let name := path_name (parse_path url) in
  let name := if name =? "" then "downloaded_image" else name in
  if has_supported_extension name then name else name ++ ".jpg".

(** The filename of [process_from_url] before the format is applied. *)
Definition base_filename (url : string) (filename : option string) : string :=
  match given_string filename with
  | Some name => name
  | None => derived_filename url
  end.

(** [Path(filename).stem + f".{output_format.lower()}"]. *)
Definition with_format (filename fmt : string) : string :=
  path_stem (parse_path filename) ++ "." ++ lower fmt.

(** The filename [process_from_url] saves under. *)
Definition url_output_filename (url : string) (filename : option string)
    (output_format : option string) : string :=
  let name := base_filename url filename in
  match given_string output_format with
  | Some fmt => with_format name fmt
  | None => name
  end.

(** The filename [process_from_folder] saves the entry [name] under. *)
Definition folder_output_filename (name : string)
    (output_format : option string) : string :=
  match given_string output_format with
  | Some fmt => stem_of_name name ++ "." ++ lower fmt
  | None => name
  end.

(** ** Saving: keyword arguments and the flattening of transparency *)

Record save_kwargs : Type :=
  { kw_quality : option Z; kw_optimize : bool }.

Definition format_is (output_format : option string)
    (names : list string) : bool :=
  match given_string output_format with
  | Some fmt => existsb (String.eqb (lower fmt)) names
  | None => false
  end.

(** The guard of the [elif] branch: the resized image is in mode RGBA and
    the requested format is JPEG. *)
Definition flattens (mode : string) (output_format : option string) : bool :=
  negb (format_is output_format ["png"])
  && (mode =? "RGBA") && format_is output_format ["jpg"; "jpeg"].

Definition save_arguments (output_format : option string) (quality : Z)
    : save_kwargs :=
  if format_is output_format ["png"]
  then {| kw_quality := None; kw_optimize := true |}
  else {| kw_quality := Some quality; kw_optimize := true |}.

(** ** The outside world

    The network, the image library, the file system and the standard output
    are an interface; every operation that can fail returns a [result].
    [print_error m] is the exception [print] raises on the line [m], when
    it raises one: a standard output that cannot encode the text of a line
    (the marks of the lines that report a saved file or a failure, a file
    name with a character outside its encoding) raises
    [UnicodeEncodeError]. *)

Inductive message : Type :=
| MsgDownloading (url : string)
| MsgOriginalSize (sz : size)
| MsgNewSize (sz : size)
| MsgSaved (p : Path)
| MsgDownloadFailed (e : exn)
| MsgProcessFailed (e : exn)
| MsgBatchStart (total : nat)
| MsgItem (i total : nat)
| MsgCompleted (done total : nat)
| MsgOutputFolder (p : Path)
| MsgNoImages (folder : Path)
| MsgFound (total : nat)
| MsgProcessing (name : string)
| MsgItemFailed (name : string) (e : exn).

Class Backend : Type :=
  { world : Type;
    content : Type;
    image : Type;
    (** [requests.get(url, timeout=30)] and [raise_for_status()] *)
    http_get : string -> world -> result content * world;
    (** [Image.open(BytesIO(content))] *)
    image_open : content -> result image;
    (** [Image.open(path)] *)
    file_open : Path -> world -> result image * world;
    image_size : image -> size;
    image_mode : image -> string;
    (** [img.resize(size, Image.Resampling.LANCZOS)] *)
    image_resize : image -> size -> result image;
    (** a white RGB image of the same size with the image pasted through
        its alpha band *)
    flatten_on_white : image -> result image;
    (** [img.save(path, **kwargs)] *)
    image_save : image -> Path -> save_kwargs -> world -> result unit * world;
    (** the names of the entries of a folder *)
    list_folder : Path -> world -> list string;
    (** [print(line)] *)
    print_error : message -> option exn }.

Record options : Type :=
  { opt_width : option Z;
    opt_height : option Z;
    opt_scale : option number;
    opt_maintain_aspect : bool;
    opt_output_format : option string;
    opt_quality : Z;
    opt_filename : option string }.

Definition default_options : options :=
  {| opt_width := None; opt_height := None; opt_scale := None;
     opt_maintain_aspect := true; opt_output_format := None;
     opt_quality := 95; opt_filename := None |}.

Section Processing.

Context {B : Backend}.

(** The console (the lines printed so far, most recent first) and the
    world. *)
Record state : Type := { console : list message; env : world }.

Definition io (A : Type) : Type := state -> result A * state.

Definition ret {A : Type} (a : A) : io A := fun st => (Ok a, st).

Definition iobind {A C : Type} (m : io A) (k : A -> io C) : io C :=
  fun st =>
    match m st with
    | (Ok a, st') => k a st'
    | (Raise e, st') => (Raise e, st')
    end.

(** [print]: the line is added to the console, unless the standard output
    refuses it. *)
Definition print (m : message) : io unit :=
  fun st =>
    match print_error m with
    | None => (Ok tt, {| console := m :: console st; env := env st |})
    | Some e => (Raise e, st)
    end.

(** A standard output that takes every line. *)
Definition prints_all : Prop := forall m : message, print_error m = None.

Definition lift {A : Type} (r : result A) : io A := fun st => (r, st).

Definition on_world {A : Type} (f : world -> result A * world) : io A :=
  fun st =>
    let '(r, w) := f (env st) in (r, {| console := console st; env := w |}).

Notation "x <~ m ;; k" := (iobind m (fun x => k))
  (at level 61, m at next level, right associativity).
Notation "m ;;; k" := (iobind m (fun _ => k))
  (at level 61, right associativity).

(** The image handed to [save]: flattened when the guard holds. *)
Definition image_to_save (resized : image) (output_format : option string)
    : result image :=
  if flattens (image_mode resized) output_format
  then flatten_on_white resized
  else Ok resized.

(** The body of the [try] of [process_from_url]. *)
Definition url_try (output_folder : Path) (url : string) (o : options)
    : io Path :=
  print (MsgDownloading url) ;;;
  bytes <~ on_world (http_get url) ;;
  img <~ lift (image_open bytes) ;;
  print (MsgOriginalSize (image_size img)) ;;;
  new_size <~ lift (_calculate_size (image_size img) (opt_width o)
                      (opt_height o) (opt_scale o) (opt_maintain_aspect o)) ;;
  print (MsgNewSize new_size) ;;;
  resized <~ lift (image_resize img new_size) ;;
  let name := url_output_filename url (opt_filename o) (opt_output_format o) in
  let output_path := joinpath output_folder name in
  let kwargs := save_arguments (opt_output_format o) (opt_quality o) in
  final <~ lift (image_to_save resized (opt_output_format o)) ;;
  on_world (image_save final output_path kwargs) ;;;
  print (MsgSaved output_path) ;;;
  ret output_path.

(** The line an [except] clause of [process_from_url] prints for the
    exception it caught: the first clause takes the request errors, the
    second every other exception. *)
Definition failure_line (e : exn) : message :=
  match e with
  | RequestException => MsgDownloadFailed e
  | _ => MsgProcessFailed e
  end.

(** [ImageResizer.process_from_url]: the two [except] clauses turn an
    exception of the [try] into a printed line and [None]; an exception
    raised by the [print] of an [except] clause leaves the function. *)
Definition process_from_url (output_folder : Path) (url : string)
    (o : options) : io (option Path) :=
  fun st =>
    match url_try output_folder url o st with
    | (Ok p, st') => (Ok (Some p), st')
    | (Raise e, st') => (print (failure_line e) ;;; ret None) st'
    end.

(** The loop of [process_from_urls]: [i] is the position of the next item,
    [successful] the tally so far. *)
Fixpoint urls_loop (output_folder : Path) (total : nat) (o : options)
    (urls : list string) (i successful : nat) : io nat :=
  match urls with
  | [] => ret successful
  | url :: rest =>
      print (MsgItem i total) ;;;
      r <~ process_from_url output_folder url o ;;
      urls_loop output_folder total o rest (S i)
        match r with
        | Some _ => S successful
        | None => successful
        end
  end.

(** [ImageResizer.process_from_urls]; the value is the tally it prints. *)
Definition process_from_urls (output_folder : Path) (urls : list string)
    (o : options) : io nat :=
  let total := List.length urls in
  print (MsgBatchStart total) ;;;
  successful <~ urls_loop output_folder total o urls 1 0 ;;
  print (MsgCompleted successful total) ;;;
  print (MsgOutputFolder output_folder) ;;;
  ret successful.

(** The body of the [try] of one iteration of [process_from_folder], up to
    the call of [save]; the value is the path saved to. *)
Definition folder_try (output_folder input_folder : Path) (name : string)
    (o : options) : io Path :=
  img <~ on_world (file_open (joinpath input_folder name)) ;;
  print (MsgProcessing name) ;;;
  print (MsgOriginalSize (image_size img)) ;;;
  new_size <~ lift (_calculate_size (image_size img) (opt_width o)
                      (opt_height o) (opt_scale o) (opt_maintain_aspect o)) ;;
  print (MsgNewSize new_size) ;;;
  resized <~ lift (image_resize img new_size) ;;
  let out_name := folder_output_filename name (opt_output_format o) in
  let output_path := joinpath output_folder out_name in
  let kwargs := save_arguments (opt_output_format o) (opt_quality o) in
  final <~ lift (image_to_save resized (opt_output_format o)) ;;
  on_world (image_save final output_path kwargs) ;;;
  ret output_path.

(** One iteration of the loop of [process_from_folder]: [processed] is
    incremented right after the save, before the line that reports it is
    printed; the [except] clause prints the failure line, and an exception
    raised by that [print] leaves the loop. *)
Definition folder_item (output_folder input_folder : Path) (name : string)
    (o : options) (processed : nat) : io nat :=
  fun st =>
    match folder_try output_folder input_folder name o st with
    | (Ok output_path, st1) =>
        match print (MsgSaved output_path) st1 with
        | (Ok _, st2) => (Ok (S processed), st2)
        | (Raise e, st2) =>
            (print (MsgItemFailed name e) ;;; ret (S processed)) st2
        end
    | (Raise e, st1) => (print (MsgItemFailed name e) ;;; ret processed) st1
    end.

Fixpoint folder_loop (output_folder input_folder : Path) (o : options)
    (names : list string) (processed : nat) : io nat :=
  match names with
  | [] => ret processed
  | name :: rest =>
      processed' <~ folder_item output_folder input_folder name o processed ;;
      folder_loop output_folder input_folder o rest processed'
  end.

(** [ImageResizer.process_from_folder]; the value is the tally it prints
    (zero when no image is found). *)
Definition process_from_folder (case_sensitive : bool)
    (output_folder input_folder : Path) (o : options) : io nat :=
  fun st =>
    let entries := list_folder input_folder (env st) in
    let images := _get_images case_sensitive entries in
    match images with
    | [] => (print (MsgNoImages input_folder) ;;; ret O) st
    | _ =>
        let total := List.length images in
        (print (MsgFound total) ;;;
         processed <~ folder_loop output_folder input_folder o images 0 ;;
         print (MsgCompleted processed total) ;;;
         print (MsgOutputFolder output_folder) ;;;
         ret processed) st
    end.

(** The path [process_from_url] saves to, and the one [process_from_folder]
    saves the entry [name] to. *)
Definition url_target (output_folder : Path) (url : string) (o : options)
    : Path :=
  joinpath output_folder
    (url_output_filename url (opt_filename o) (opt_output_format o)).

Definition folder_target (output_folder : Path) (name : string) (o : options)
    : Path :=
  joinpath output_folder (folder_output_filename name (opt_output_format o)).

(** The outcome of each item of a batch, in order: what [process_from_url]
    returns for it when the items are processed one after the other, up to
    the item at which the batch is left by an exception, if there is one. *)
Fixpoint urls_outcomes (output_folder : Path) (total : nat) (o : options)
    (urls : list string) (i : nat) (st : state) : list (option Path) :=
  match urls with
  | [] => []
  | url :: rest =>
      match print (MsgItem i total) st with
      | (Ok _, st1) =>
          match process_from_url output_folder url o st1 with
          | (Ok r, st2) =>
              r :: urls_outcomes output_folder total o rest (S i) st2
          | (Raise _, _) => []
          end
      | (Raise _, _) => []
      end
  end.

Definition successes (outcomes : list (option Path)) : nat :=
  List.length (filter (fun r => match r with Some _ => true | None => false end)
                 outcomes).

End Processing.

(** ** An in-memory backend

    A small backend to run the processing functions on: the world is the list
    of the calls made to [save] (most recent first), whether they succeeded
    or not.  Saving an image with an alpha band under a JPEG name fails, as
    it does in the image library.  Its standard output takes every
    line. *)

Module Memory.

Record picture : Type := { mode : string; dims : size; white : bool }.

Definition saved : Type := (picture * Path * save_kwargs)%type.

Definition is_jpeg_name (name : string) : bool :=
  endswith (lower name) ".jpg" || endswith (lower name) ".jpeg".

(** The modes of the image library that carry an alpha band. *)
Definition has_alpha_band (m : string) : bool :=
  existsb (String.eqb m) ["RGBA"; "LA"; "PA"; "RGBa"; "La"].

Definition get (url : string) (w : list saved)
    : result string * list saved :=
  if endswith url "/missing" then (Raise RequestException, w)
  else (Ok url, w).

Definition decode (bytes : string) : result picture :=
  if endswith bytes ".txt" then Raise OSError
  else if endswith (lower bytes) ".jpg"
       then Ok {| mode := "RGB"; dims := (1000, 500); white := false |}
       else Ok {| mode := "RGBA"; dims := (1000, 500); white := false |}.

Definition resize (p : picture) (sz : size) : result picture :=
  if ((0 <? fst sz) && (0 <? snd sz))%Z
  then Ok {| mode := mode p; dims := sz; white := white p |}
  else Raise ValueError.

Definition flatten (p : picture) : result picture :=
  Ok {| mode := "RGB"; dims := dims p; white := true |}.

Definition save (p : picture) (target : Path) (kw : save_kwargs)
    (w : list saved) : result unit * list saved :=
  if has_alpha_band (mode p) && is_jpeg_name (path_name target)
  then (Raise OSError, (p, target, kw) :: w)
  else (Ok tt, (p, target, kw) :: w).

#[export] Instance backend : Backend :=
  {| world := list saved;
     content := string;
     image := picture;
     http_get := get;
     image_open := decode;
     file_open := fun p w => (decode (path_name p), w);
     image_size := dims;
     image_mode := mode;
     image_resize := resize;
     flatten_on_white := flatten;
     image_save := save;
     list_folder := fun _ _ => ["b.PNG"; "a.jpg"; "notes.txt"];
     print_error := fun _ => None |}.

Definition start : state := {| console := []; env := [] |}.

Definition out : Path := parse_path "resized_images".

End Memory.

(** ** Values used in the examples *)

(** The doubles 0.5 and 0.75. *)
Definition flt_0_5 : PyFloat.float := S754_finite false 4503599627370496 (-53).
Definition flt_0_75 : PyFloat.float := S754_finite false 6755399441055744 (-53).

(** Options asking for JPEG output, for the examples. *)
Definition jpeg_options : options :=
  {| opt_width := Some 800%Z; opt_height := None; opt_scale := None;
     opt_maintain_aspect := true; opt_output_format := Some "JPG";
     opt_quality := 90; opt_filename := Some "holiday.png" |}.

(** ** The value of a double, and where a real lies between two integers

    [ulps x] is the value of the finite double [x] counted in units of
    [2^-1074], the smallest positive double: an integer for every double the
    operations produce. *)

Definition unit_exponent : Z := 1074.

Definition ulps (x : PyFloat.float) : Z :=
  match x with
  | S754_finite s m e => cond_Zopp s (Zpos m * 2 ^ (e + unit_exponent))
  | _ => 0
  end.

(** The fraction [N / D] lies in the interval from [m] to [m + 1] at the
    place the location says: on [m], below the middle, on it, or above. *)
Definition located (m : Z) (l : location) (N D : Z) : Prop :=
  match l with
  | loc_Exact => N = m * D
  | loc_Inexact Lt => m * D < N /\ 2 * N < (2 * m + 1) * D
  | loc_Inexact Eq => 2 * N = (2 * m + 1) * D
  | loc_Inexact Gt => (2 * m + 1) * D < 2 * N /\ N < (m + 1) * D
  end%Z.

(** A double that is not negative and not NaN. *)
Definition not_negative (x : PyFloat.float) : Prop :=
  match x with
  | S754_zero _ => True
  | S754_infinity s => s = false
  | S754_nan => False
  | S754_finite s _ _ => s = false
  end.

(** A double that is zero or finite and positive. *)
Definition finite_nonneg (x : PyFloat.float) : Prop :=
  match x with
  | S754_zero _ => True
  | S754_finite false _ _ => True
  | _ => False
  end.

(** The documented domain of the sizing arguments: a width, a height or a
    scale that is given is positive. *)
Definition positive_or_absent (a : option Z) : Prop :=
  match a with
  | Some n => (0 < n)%Z
  | None => True
  end.

Definition positive_scale_or_absent (scale : option number) : Prop :=
  match scale with
  | Some s => number_positive s = true
  | None => True
  end.

(** Sizes of ordinary magnitude: a dimension below [2^50]; a float scale
    that is a normal double below [2^970]. *)
Definition below_or_absent (bound : Z) (a : option Z) : Prop :=
  match a with
  | Some n => (n < bound)%Z
  | None => True
  end.

Definition ordinary_scale (scale : option number) : Prop :=
  match scale with
  | Some (PyFlt (S754_finite _ m e)) =>
      (2 ^ 52 <= Zpos m < 2 ^ 53)%Z /\ (- 1074 <= e <= 917)%Z
  | _ => True
  end.

(** The patterns [_get_images] globs with, without the star. *)
Definition glob_patterns : list string :=
  flat_map (fun ext => [ext; upper ext]) SUPPORTED_FORMATS.

(** ** What a run reports

    The exceptions the arithmetic of the size calculator can raise, and the
    lines of the console that say a file was saved or an item failed. *)

Definition arithmetic_error (e : exn) : bool :=
  match e with
  | ZeroDivisionError | OverflowError | ValueError => true
  | _ => false
  end.

Definition is_saved_line (m : message) : bool :=
  match m with
  | MsgSaved _ => true
  | _ => false
  end.

Definition is_failure_line (m : message) : bool :=
  match m with
  | MsgDownloadFailed _ | MsgProcessFailed _ | MsgItemFailed _ _ => true
  | _ => false
  end.

Definition saved_lines (c : list message) : nat :=
  List.length (filter is_saved_line c).

Definition failure_lines (c : list message) : nat :=
  List.length (filter is_failure_line c).

(** ** Other folders and other standard outputs for the in-memory backend

    The in-memory backend over a folder with the given entries and a
    standard output that raises on the lines [refused] says. *)

Definition backend_of (entries : list string)
    (refused : message -> option exn) : Backend :=
  {| world := list Memory.saved;
     content := string;
     image := Memory.picture;
     http_get := Memory.get;
     image_open := Memory.decode;
     file_open := fun p w => (Memory.decode (path_name p), w);
     image_size := Memory.dims;
     image_mode := Memory.mode;
     image_resize := Memory.resize;
     flatten_on_white := Memory.flatten;
     image_save := Memory.save;
     list_folder := fun _ _ => entries;
     print_error := refused |}.

Definition backend_with (entries : list string) : Backend :=
  backend_of entries (fun _ => None).

(** The lines that carry a mark: the check mark of a saved file, the cross
    of a failure. *)
Definition has_mark (m : message) : bool :=
  match m with
  | MsgSaved _ | MsgDownloadFailed _ | MsgProcessFailed _
  | MsgItemFailed _ _ => true
  | _ => false
  end.

(** A standard output whose encoding has no character for the marks:
    [print] raises on the lines that carry one. *)
Definition plain_output : Backend :=
  backend_of ["b.PNG"; "a.jpg"; "notes.txt"]
    (fun m => if has_mark m then Some UnicodeEncodeError else None).

Definition plain_start : @state plain_output :=
  @Build_state plain_output [] ([] : list Memory.saved).

(** A standard output that cannot encode the name of the saved file: [print]
    raises on the line that reports it, and on no other. *)
Definition unnamed_output : Backend :=
  backend_of ["b.PNG"; "a.jpg"; "notes.txt"]
    (fun m => match m with
              | MsgSaved _ => Some UnicodeEncodeError
              | _ => None
              end).

Definition unnamed_start : @state unnamed_output :=
  @Build_state unnamed_output [] ([] : list Memory.saved).


Definition nan_options : options :=
  {| opt_width := None; opt_height := None;
     opt_scale := Some (PyFlt S754_nan);
     opt_maintain_aspect := true; opt_output_format := None;
     opt_quality := 95; opt_filename := None |}.

(** * Facts about binary64 arithmetic *)

Section Binary64.

Local Open Scope Z_scope.

(** *** The model against the machine

    On a grid of small operands and on operands near [2^53] the model and
    the machine's doubles give the same quotients and products. *)

Example model_agrees_with_machine :
  forallb (fun a => forallb (fun b => Machine.agree (a + b) a b)
                      (Machine.upto 60 1))
    (Machine.upto 60 1)
  && forallb (fun a => Machine.agree 3 (9007199254740991 - a) 3
                       && Machine.agree 49 1 (49 + a)
                       && Machine.agree (1000 + a) 800 (1000 + a))
       (Machine.upto 100 0)
  = true.
Proof. vm_compute. reflexivity. Qed.

(** *** The number of binary digits *)

Lemma digits2_pos_size (p : positive) : digits2_pos p = Pos.size p.
Proof. induction p; simpl; congruence. Qed.

Lemma Zdigits2_log2 (m : Z) : 0 < m -> Zdigits2 m = Z.log2 m + 1.
Proof.
  destruct m as [|p|p]; try lia. intros _. simpl.
  rewrite digits2_pos_size. destruct p; simpl; lia.
Qed.

Lemma Zdigits2_bounds (m : Z) :
  0 < m -> 2 ^ (Zdigits2 m - 1) <= m < 2 ^ Zdigits2 m.
Proof.
  intros Hm. rewrite (Zdigits2_log2 m Hm).
  replace (Z.log2 m + 1 - 1) with (Z.log2 m) by lia.
  replace (Z.log2 m + 1) with (Z.succ (Z.log2 m)) by lia.
  apply Z.log2_spec. exact Hm.
Qed.

Lemma Zdigits2_unique (m d : Z) :
  0 < d -> 2 ^ (d - 1) <= m < 2 ^ d -> Zdigits2 m = d.
Proof.
  intros Hd Hm.
  assert (0 < m) by (pose proof (Z.pow_pos_nonneg 2 (d - 1)); lia).
  rewrite (Zdigits2_log2 m) by assumption.
  rewrite (Z.log2_unique m (d - 1)); [lia | lia |].
  replace (Z.succ (d - 1)) with d by lia. exact Hm.
Qed.

(** *** Shifting right keeps track of the location *)

Lemma located_bounds (m : Z) (l : location) (N D : Z) :
  0 < D -> located m l N D -> m * D <= N < (m + 1) * D.
Proof.
  intros HD H. destruct l as [|[| |]]; cbn [located] in H; lia.
Qed.

Lemma shr_1_located (mrs : shr_record) (N D : Z) :
  0 < D -> 0 <= shr_m mrs ->
  located (shr_m mrs) (loc_of_shr_record mrs) N D ->
  located (shr_m (shr_1 mrs)) (loc_of_shr_record (shr_1 mrs)) N (2 * D)
  /\ 0 <= shr_m (shr_1 mrs).
Proof.
  intros HD Hm H.
  destruct mrs as [m r s].
  destruct m as [|[p|p|]|p]; try (simpl in Hm; lia);
    destruct r, s;
    cbn [located shr_1 shr_m loc_of_shr_record orb] in *; split; lia.
Qed.

Lemma pow2_pos (n : Z) : 0 <= n -> 0 < 2 ^ n.
Proof. intros Hn. apply Z.pow_pos_nonneg; lia. Qed.

Lemma pow2_double (p : positive) :
  2 ^ Zpos p~0 = 2 ^ Zpos p * 2 ^ Zpos p
  /\ 2 ^ Zpos p~1 = 2 ^ Zpos p * (2 ^ Zpos p * 2).
Proof.
  split.
  - replace (Zpos p~0) with (Zpos p + Zpos p) by lia.
    now rewrite Z.pow_add_r by lia.
  - replace (Zpos p~1) with (Zpos p + (Zpos p + 1)) by lia.
    rewrite !Z.pow_add_r by lia. now rewrite Z.pow_1_r.
Qed.

Lemma iter_shr_1_located (p : positive) :
  forall (mrs : shr_record) (N D : Z),
    0 < D -> 0 <= shr_m mrs ->
    located (shr_m mrs) (loc_of_shr_record mrs) N D ->
    located (shr_m (iter_pos shr_1 p mrs))
      (loc_of_shr_record (iter_pos shr_1 p mrs)) N (2 ^ Zpos p * D)
    /\ 0 <= shr_m (iter_pos shr_1 p mrs).
Proof.
  induction p as [p IH|p IH|]; intros mrs N D HD Hm H; cbn [iter_pos].
  - destruct (shr_1_located mrs N D HD Hm H) as [H1 Hm1].
    assert (HD1 : 0 < 2 * D) by lia.
    destruct (IH _ N _ HD1 Hm1 H1) as [H2 Hm2].
    assert (HD2 : 0 < 2 ^ Zpos p * (2 * D))
      by (pose proof (pow2_pos (Zpos p)); nia).
    destruct (IH _ N _ HD2 Hm2 H2) as [H3 Hm3].
    split; [|exact Hm3].
    replace (2 ^ Zpos p~1 * D) with (2 ^ Zpos p * (2 ^ Zpos p * (2 * D)));
      [exact H3|].
    rewrite (proj2 (pow2_double p)). ring.
  - destruct (IH _ N _ HD Hm H) as [H2 Hm2].
    assert (HD2 : 0 < 2 ^ Zpos p * D)
      by (pose proof (pow2_pos (Zpos p)); nia).
    destruct (IH _ N _ HD2 Hm2 H2) as [H3 Hm3].
    split; [|exact Hm3].
    replace (2 ^ Zpos p~0 * D) with (2 ^ Zpos p * (2 ^ Zpos p * D));
      [exact H3|].
    rewrite (proj1 (pow2_double p)). ring.
  - destruct (shr_1_located mrs N D HD Hm H) as [H1 Hm1].
    split; [|exact Hm1]. exact H1.
Qed.

Lemma loc_of_record_of_loc (m : Z) (l : location) :
  loc_of_shr_record (shr_record_of_loc m l) = l
  /\ shr_m (shr_record_of_loc m l) = m.
Proof. destruct l as [|[| |]]; split; reflexivity. Qed.

(** Shifting [m], located at [l] for [N / D], right by [n] places gives the
    integer part of [N / (2^n * D)] and its location. *)
Lemma shr_located (m : Z) (l : location) (e n N D : Z) :
  0 < D -> 0 <= m -> 0 <= n -> located m l N D ->
  located (shr_m (fst (shr (shr_record_of_loc m l) e n)))
    (loc_of_shr_record (fst (shr (shr_record_of_loc m l) e n)))
    N (2 ^ n * D)
  /\ 0 <= shr_m (fst (shr (shr_record_of_loc m l) e n))
  /\ snd (shr (shr_record_of_loc m l) e n) = e + n.
Proof.
  intros HD Hm Hn H.
  destruct (loc_of_record_of_loc m l) as [El Em].
  destruct n as [|p|p]; try lia; cbn [shr fst snd].
  - rewrite El, Em. rewrite Z.pow_0_r, Z.mul_1_l.
    repeat split; [exact H | exact Hm | lia].
  - destruct (iter_shr_1_located p (shr_record_of_loc m l) N D HD) as [H1 H2].
    + now rewrite Em.
    + now rewrite El, Em.
    + auto.
Qed.

(** *** Rounding a located value in the normal range *)

Lemma fexp_normal (d : Z) :
  - 1074 <= d - 53 -> fexp PyFloat.prec PyFloat.emax d = d - 53.
Proof. unfold fexp, emin, PyFloat.prec, PyFloat.emax. lia. Qed.

Lemma round_nearest_even_located (m : Z) (l : location) (N D : Z) :
  0 < D -> located m l N D ->
  (round_nearest_even m l = m \/ round_nearest_even m l = m + 1)
  /\ 2 * Z.abs (round_nearest_even m l * D - N) <= D.
Proof.
  intros HD H.
  destruct l as [|[| |]]; cbn [located round_nearest_even] in *.
  - split; [auto | nia].
  - destruct (Z.even m); split; auto; nia.
  - split; [auto | nia].
  - split; [auto | nia].
Qed.

Lemma shr_carry (e : Z) :
  shr (shr_record_of_loc (2 ^ 53) loc_Exact) e 1
  = ({| shr_m := Zpos 4503599627370496; shr_r := false; shr_s := false |},
     e + 1).
Proof. reflexivity. Qed.

Lemma round_aux_normal (m e k : Z) (l : location) (N D : Z) :
  0 < D -> located m l N D ->
  0 <= k -> 2 ^ (52 + k) <= m < 2 ^ (53 + k) ->
  - 1074 <= e + k -> e + k < 971 ->
  exists (m' : positive) (e' : Z),
    binary_round_aux PyFloat.prec PyFloat.emax false m e l
    = S754_finite false m' e'
    /\ 2 ^ 52 <= Zpos m' < 2 ^ 53
    /\ e + k <= e' <= e + k + 1
    /\ 2 * Z.abs (Zpos m' * 2 ^ (e' - e - k) * (2 ^ k * D) - N) <= 2 ^ k * D.
Proof.
  intros HD Hloc Hk Hm Hlo Hhi.
  assert (Hm0 : 0 < m) by (pose proof (pow2_pos (52 + k)); lia).
  assert (Hd : Zdigits2 m = 53 + k).
  { apply Zdigits2_unique; [lia|].
    replace (53 + k - 1) with (52 + k) by lia. exact Hm. }
  unfold binary_round_aux, shr_fexp. rewrite Hd.
  rewrite fexp_normal by lia.
  replace (53 + k + e - 53 - e) with k by lia.
  destruct (shr_located m l e k N D HD (Z.lt_le_incl _ _ Hm0) Hk Hloc)
    as [H1 [Hm1 He1]].
  destruct (shr (shr_record_of_loc m l) e k) as [mrs1 e1].
  cbn [fst snd] in H1, Hm1, He1. subst e1.
  set (m1 := shr_m mrs1) in *.
  set (l1 := loc_of_shr_record mrs1) in *.
  pose proof (pow2_pos k Hk) as HP.
  assert (HDk : 0 < 2 ^ k * D) by nia.
  pose proof (located_bounds m l N D HD Hloc) as B0.
  pose proof (located_bounds m1 l1 N _ HDk H1) as B1.
  rewrite !Z.pow_add_r in Hm by lia.
  assert (Hm1r : 2 ^ 52 <= m1 < 2 ^ 53).
  { split.
    - assert (2 ^ 52 * (2 ^ k * D) < (m1 + 1) * (2 ^ k * D)) by nia.
      assert (2 ^ 52 < m1 + 1)
        by (apply (Z.mul_lt_mono_pos_r (2 ^ k * D)); lia).
      lia.
    - assert (m1 * (2 ^ k * D) < 2 ^ 53 * (2 ^ k * D)) by nia.
      apply (Z.mul_lt_mono_pos_r (2 ^ k * D)); lia. }
  destruct (round_nearest_even_located m1 l1 N _ HDk H1) as [HM Herr].
  set (M := round_nearest_even m1 l1) in *.
  assert (HMr : 2 ^ 52 <= M <= 2 ^ 53) by lia.
  destruct (Z.eq_dec M (2 ^ 53)) as [E|NE].
  - (* the mantissa overflowed to 2^53: one more exact shift *)
    rewrite E.
    replace (Zdigits2 (2 ^ 53)) with 54 by reflexivity.
    rewrite fexp_normal by lia.
    replace (54 + (e + k) - 53 - (e + k)) with 1 by lia.
    rewrite shr_carry. cbn [shr_m].
    assert (Hle : (e + k + 1 <=? PyFloat.emax - PyFloat.prec) = true)
      by (apply Z.leb_le; unfold PyFloat.emax, PyFloat.prec; lia).
    rewrite Hle.
    exists 4503599627370496%positive, (e + k + 1). split; [reflexivity|].
    split; [split; [apply Z.leb_le | apply Z.ltb_lt]; reflexivity|].
    split; [lia|].
    replace (e + k + 1 - e - k) with 1 by lia.
    replace (Z.pos 4503599627370496 * 2 ^ 1) with M by (rewrite E; reflexivity).
    exact Herr.
  - assert (HdM : Zdigits2 M = 53)
      by (apply Zdigits2_unique; [lia | change (53 - 1) with 52; lia]).
    rewrite HdM. rewrite fexp_normal by lia.
    replace (53 + (e + k) - 53 - (e + k)) with 0 by lia.
    cbn [shr fst snd].
    rewrite (proj2 (loc_of_record_of_loc M loc_Exact)).
    destruct M as [|pM|pM] eqn:EM; try lia.
    assert (Hle : (e + k <=? PyFloat.emax - PyFloat.prec) = true)
      by (apply Z.leb_le; unfold PyFloat.emax, PyFloat.prec; lia).
    rewrite Hle.
    exists pM, (e + k). split; [reflexivity|].
    split; [lia|]. split; [lia|].
    replace (e + k - e - k) with 0 by lia.
    rewrite Z.pow_0_r, Z.mul_1_r. exact Herr.
Qed.

(** *** Conversion of an integer *)

Lemma iter_xO_pow2 (p t : positive) :
  Zpos (Pos.iter xO p t) = Zpos p * 2 ^ Zpos t.
Proof.
  induction t as [|t IH] using Pos.peano_ind.
  - simpl. lia.
  - rewrite Pos.iter_succ, Pos2Z.inj_xO, IH, Pos2Z.inj_succ.
    rewrite Z.pow_succ_r by lia. ring.
Qed.

Lemma abs_scale (X Y B c : Z) :
  0 <= c -> 2 * Z.abs (X - Y) <= B -> 2 * Z.abs (X * c - Y * c) <= B * c.
Proof.
  intros Hc H. replace (X * c - Y * c) with ((X - Y) * c) by ring.
  rewrite Z.abs_mul, (Z.abs_eq c) by exact Hc. nia.
Qed.

Lemma of_int_exact (w : Z) :
  0 < w < 2 ^ 53 ->
  exists (mx : positive) (ex : Z),
    PyFloat.of_int w = Ok (S754_finite false mx ex)
    /\ 2 ^ 52 <= Zpos mx < 2 ^ 53
    /\ - 52 <= ex <= 0
    /\ Zpos mx = w * 2 ^ (- ex).
Proof.
  intros Hw. destruct w as [|p|p]; try lia.
  unfold PyFloat.of_int, binary_normalize, binary_round.
  pose proof (Zdigits2_bounds (Zpos p) ltac:(lia)) as Hd.
  set (d := Zdigits2 (Zpos p)) in *.
  assert (Hd1 : 1 <= d <= 53).
  { split.
    - subst d. simpl. lia.
    - destruct (Z_le_gt_dec d 53) as [|Hgt]; [assumption|].
      assert (2 ^ 53 <= 2 ^ (d - 1)) by (apply Z.pow_le_mono_r; lia). lia. }
  change (Zpos (digits2_pos p)) with d.
  rewrite fexp_normal by lia. rewrite Z.add_0_r.
  assert (Hmz : exists mz : positive,
             shl_align p 0 (d - 53) = (mz, d - 53)
             /\ Zpos mz = Zpos p * 2 ^ (53 - d)).
  { unfold shl_align. rewrite Z.sub_0_r.
    destruct (d - 53) as [|t|t] eqn:Et; try lia.
    - exists p. split; [reflexivity|].
      replace (53 - d) with 0 by lia. lia.
    - exists (Pos.iter xO p t). split; [reflexivity|].
      rewrite iter_xO_pow2. replace (53 - d) with (Zpos t) by lia.
      reflexivity. }
  destruct Hmz as [mz [Eal Hmz]]. rewrite Eal.
  assert (Hrange : 2 ^ (52 + 0) <= Zpos mz < 2 ^ (53 + 0)).
  { rewrite Hmz. simpl (52 + 0). simpl (53 + 0).
    assert (E52 : 2 ^ 52 = 2 ^ (d - 1) * 2 ^ (53 - d))
      by (rewrite <- Z.pow_add_r by lia; f_equal; lia).
    assert (E53 : 2 ^ 53 = 2 ^ d * 2 ^ (53 - d))
      by (rewrite <- Z.pow_add_r by lia; f_equal; lia).
    rewrite E52, E53.
    pose proof (pow2_pos (53 - d) ltac:(lia)). nia. }
  destruct (round_aux_normal (Zpos mz) (d - 53) 0 loc_Exact (Zpos mz) 1)
    as [m' [e' [E [Hn [He Herr]]]]]; try lia.
  { cbn [located]. lia. }
  rewrite E.
  assert (He' : e' = d - 53).
  { destruct (Z.eq_dec e' (d - 53)) as [|Hne]; [assumption|].
    replace (e' - (d - 53) - 0) with 1 in Herr by lia.
    simpl (52 + 0) in Hrange. simpl (53 + 0) in Hrange. lia. }
  subst e'. replace (d - 53 - (d - 53) - 0) with 0 in Herr by lia.
  exists m', (d - 53). split; [reflexivity|].
  split; [exact Hn|]. split; [lia|].
  replace (- (d - 53)) with (53 - d) by lia. lia.
Qed.

(** *** The product of an integer and a double *)

Lemma abs_unscale (X B T : Z) :
  0 < T -> 2 * Z.abs (X * T) <= B * T -> 2 * Z.abs X <= B.
Proof.
  intros HT H. rewrite Z.abs_mul, (Z.abs_eq T) in H by lia. nia.
Qed.

Lemma int_mul_normal (w : Z) (my : positive) (ey : Z) :
  0 < w < 2 ^ 53 -> 2 ^ 52 <= Zpos my < 2 ^ 53 -> - 1074 <= ey <= 917 ->
  exists (mp : positive) (ep : Z),
    PyFloat.int_mul w (S754_finite false my ey) = Ok (S754_finite false mp ep)
    /\ 2 ^ 52 <= Zpos mp < 2 ^ 53
    /\ ey <= ep <= ey + 54
    /\ 2 ^ 53 * Z.abs (ulps (S754_finite false mp ep)
                       - w * ulps (S754_finite false my ey))
       <= w * ulps (S754_finite false my ey).
Proof.
  intros Hw Hmy Hey.
  destruct (of_int_exact w Hw) as [mx [ex [Eof [Hmx [Hex Emx]]]]].
  unfold PyFloat.int_mul. rewrite Eof. cbn [bind SFmul xorb].
  set (P := Zpos (mx * my)).
  assert (HP : 2 ^ 104 <= P < 2 ^ 106).
  { subst P. rewrite Pos2Z.inj_mul.
    change (2 ^ 104) with (2 ^ 52 * 2 ^ 52).
    change (2 ^ 106) with (2 ^ 53 * 2 ^ 53). nia. }
  pose proof (Zdigits2_bounds P ltac:(lia)) as Hd.
  set (k := Zdigits2 P - 53).
  assert (Hk : 52 <= k <= 53).
  { subst k. split.
    - destruct (Z_le_gt_dec 105 (Zdigits2 P)) as [|Hgt]; [lia|].
      assert (2 ^ Zdigits2 P <= 2 ^ 104) by (apply Z.pow_le_mono_r; lia). lia.
    - destruct (Z_le_gt_dec (Zdigits2 P) 106) as [|Hgt]; [lia|].
      assert (2 ^ 106 <= 2 ^ (Zdigits2 P - 1))
        by (apply Z.pow_le_mono_r; lia). lia. }
  assert (HPk : 2 ^ (52 + k) <= P < 2 ^ (53 + k)).
  { replace (52 + k) with (Zdigits2 P - 1) by (subst k; lia).
    replace (53 + k) with (Zdigits2 P) by (subst k; lia). exact Hd. }
  destruct (round_aux_normal P (ex + ey) k loc_Exact P 1)
    as [mp [ep [E [Hn [He Herr]]]]]; try lia.
  { cbn [located]. lia. }
  rewrite E. exists mp, ep. split; [reflexivity|].
  split; [exact Hn|]. split; [lia|].
  cbn [ulps cond_Zopp]. unfold unit_exponent.
  set (t := - ex) in *.
  set (a1 := 2 ^ (ep - (ex + ey) - k)) in *.
  set (c := 2 ^ (k - t)).
  set (g := 2 ^ (ey + 1074)).
  set (T := 2 ^ t) in *.
  assert (HT : 0 < T) by (apply pow2_pos; subst t; lia).
  assert (Hc : 0 < c) by (apply pow2_pos; subst t; lia).
  assert (Hg : 0 < g) by (apply pow2_pos; lia).
  assert (Ek : 2 ^ k = c * T).
  { subst c T. rewrite <- Z.pow_add_r by (subst t; lia). f_equal. lia. }
  assert (Eep : 2 ^ (ep + 1074) = a1 * c * g).
  { subst a1 c g. rewrite <- !Z.pow_add_r by (subst t; lia).
    f_equal. subst t. lia. }
  rewrite Eep.
  assert (EP : P = w * Zpos my * T).
  { subst P. rewrite Pos2Z.inj_mul, Emx. ring. }
  rewrite Ek, Z.mul_1_r in Herr. rewrite EP in Herr.
  replace (Zpos mp * a1 * (c * T) - w * Zpos my * T)
    with ((Zpos mp * a1 * c - w * Zpos my) * T) in Herr by ring.
  apply abs_unscale in Herr; [|exact HT].
  assert (Hrel : 2 ^ 52 * c <= w * Zpos my).
  { rewrite Z.pow_add_r in HPk by lia. rewrite Ek, EP in HPk.
    apply (Z.mul_le_mono_pos_r _ _ T); [exact HT|]. nia. }
  replace (Zpos mp * (a1 * c * g) - w * (Zpos my * g))
    with ((Zpos mp * a1 * c - w * Zpos my) * g) by ring.
  rewrite Z.abs_mul, (Z.abs_eq g) by lia.
  set (X := Z.abs (Zpos mp * a1 * c - w * Zpos my)) in *.
  assert (H1 : 2 * X * g <= c * g)
    by (apply Z.mul_le_mono_nonneg_r; lia).
  assert (H2 : 2 ^ 52 * c * g <= w * Zpos my * g)
    by (apply Z.mul_le_mono_nonneg_r; lia).
  change (2 ^ 53) with (2 ^ 52 * 2). lia.
Qed.

(** *** The quotient of two integers *)

Lemma new_location_located (b q r N : Z) :
  0 < b -> 0 <= r < b -> N = b * q + r ->
  located q (new_location b r) N b.
Proof.
  intros Hb Hr HN. unfold new_location, new_location_even, new_location_odd.
  destruct (Z.even b) eqn:Ev.
  - destruct (Z.eqb_spec r 0) as [->|Hr0]; cbn [located]; [lia|].
    destruct (Z.compare_spec (2 * r) b); cbn [located]; lia.
  - destruct (Z.eqb_spec r 0) as [->|Hr0]; cbn [located]; [lia|].
    assert (Hodd : b <> 2 * r).
    { intros ->. rewrite Z.even_mul in Ev. discriminate. }
    destruct (Z.compare_spec (2 * r + 1) b); cbn [located]; lia.
Qed.

Lemma div_core_located (a b : Z) :
  0 < a < 2 ^ 53 -> 0 < b < 2 ^ 53 ->
  exists (q s : Z) (l : location),
    SFdiv_core_binary PyFloat.prec PyFloat.emax a 0 b 0 = (q, - s, l)
    /\ 1 <= s <= 105
    /\ located q l (a * 2 ^ s) b
    /\ 2 ^ 52 <= q < 2 ^ 54
    /\ b * q <= a * 2 ^ s.
Proof.
  intros Ha Hb. unfold SFdiv_core_binary.
  pose proof (Zdigits2_bounds a ltac:(lia)) as Hd1.
  pose proof (Zdigits2_bounds b ltac:(lia)) as Hd2.
  set (d1 := Zdigits2 a) in *. set (d2 := Zdigits2 b) in *.
  assert (Hr1 : 1 <= d1 <= 53).
  { split.
    - destruct (Z_le_gt_dec 1 d1) as [|Hgt]; [assumption|].
      assert (d1 = Z.log2 a + 1) by (apply Zdigits2_log2; lia).
      pose proof (Z.log2_nonneg a). lia.
    - destruct (Z_le_gt_dec d1 53) as [|Hgt]; [assumption|].
      assert (2 ^ 53 <= 2 ^ (d1 - 1)) by (apply Z.pow_le_mono_r; lia). lia. }
  assert (Hr2 : 1 <= d2 <= 53).
  { split.
    - destruct (Z_le_gt_dec 1 d2) as [|Hgt]; [assumption|].
      assert (d2 = Z.log2 b + 1) by (apply Zdigits2_log2; lia).
      pose proof (Z.log2_nonneg b). lia.
    - destruct (Z_le_gt_dec d2 53) as [|Hgt]; [assumption|].
      assert (2 ^ 53 <= 2 ^ (d2 - 1)) by (apply Z.pow_le_mono_r; lia). lia. }
  rewrite fexp_normal by lia.
  set (s := 53 + d2 - d1).
  replace (Z.min (d1 + 0 - (d2 + 0) - 53) (0 - 0)) with (- s)
    by (subst s; lia).
  replace (0 - 0 - - s) with s by lia.
  assert (Hs : 1 <= s <= 105) by (subst s; lia).
  assert (Esh : match s with
                | 0 => a
                | Zpos _ => Z.shiftl a s
                | Zneg _ => 0
                end = a * 2 ^ s).
  { destruct s as [|ps|ps] eqn:Es; try lia.
    rewrite Z.shiftl_mul_pow2 by lia. reflexivity. }
  rewrite Esh.
  pose proof (Z_div_mod (a * 2 ^ s) b ltac:(lia)) as Hdiv.
  destruct (Z.div_eucl (a * 2 ^ s) b) as [q r].
  destruct Hdiv as [Eq Hr].
  exists q, s, (new_location b r).
  split; [reflexivity|]. split; [exact Hs|].
  split; [now apply new_location_located|].
  assert (E1 : 2 ^ (d1 - 1) * 2 ^ s = 2 ^ 52 * 2 ^ d2)
    by (rewrite <- !Z.pow_add_r by lia; f_equal; subst s; lia).
  assert (E2 : 2 ^ d1 * 2 ^ s = 2 ^ 54 * 2 ^ (d2 - 1))
    by (rewrite <- !Z.pow_add_r by lia; f_equal; subst s; lia).
  pose proof (pow2_pos s ltac:(lia)) as Hps.
  set (S2 := 2 ^ s) in *.
  split; [|lia].
  split.
  - assert (2 ^ 52 * b < b * (q + 1)) by nia.
    assert (2 ^ 52 < q + 1) by nia. lia.
  - assert (b * q < 2 ^ 54 * b) by nia. nia.
Qed.

Lemma int_truediv_normal (a b : Z) :
  0 < a < 2 ^ 53 -> 0 < b < 2 ^ 53 ->
  exists (m : positive) (e : Z),
    PyFloat.int_truediv a b = Ok (S754_finite false m e)
    /\ 2 ^ 52 <= Zpos m < 2 ^ 53
    /\ - 105 <= e <= 1
    /\ 2 ^ 53 * Z.abs (ulps (S754_finite false m e) * b - a * 2 ^ 1074)
       <= a * 2 ^ 1074.
Proof.
  intros Ha Hb.
  destruct (div_core_located a b Ha Hb) as [q [s [l [Ec [Hs [Hl [Hq Hqb]]]]]]].
  destruct a as [|pa|pa]; try lia. destruct b as [|pb|pb]; try lia.
  unfold PyFloat.int_truediv.
  cbn [Z.ltb Z.compare Z.abs Z.to_pos SFdiv xorb].
  rewrite Ec.
  pose proof (Zdigits2_bounds q ltac:(lia)) as Hd.
  set (k := Zdigits2 q - 53).
  assert (Hk : 0 <= k <= 1).
  { subst k. split.
    - destruct (Z_le_gt_dec 53 (Zdigits2 q)) as [|Hgt]; [lia|].
      assert (2 ^ Zdigits2 q <= 2 ^ 52) by (apply Z.pow_le_mono_r; lia). lia.
    - destruct (Z_le_gt_dec (Zdigits2 q) 54) as [|Hgt]; [lia|].
      assert (2 ^ 54 <= 2 ^ (Zdigits2 q - 1))
        by (apply Z.pow_le_mono_r; lia). lia. }
  assert (Hqk : 2 ^ (52 + k) <= q < 2 ^ (53 + k)).
  { replace (52 + k) with (Zdigits2 q - 1) by (subst k; lia).
    replace (53 + k) with (Zdigits2 q) by (subst k; lia). exact Hd. }
  destruct (round_aux_normal q (- s) k l (Zpos pa * 2 ^ s) (Zpos pb))
    as [m [e [E [Hn [He Herr]]]]]; try lia; try assumption.
  rewrite E. exists m, e. split; [reflexivity|].
  split; [exact Hn|]. split; [lia|].
  cbn [ulps cond_Zopp]. unfold unit_exponent.
  set (a1 := 2 ^ (e - - s - k)) in *.
  set (c := 2 ^ (1074 - s)).
  set (K := 2 ^ k) in *.
  set (S2 := 2 ^ s) in *.
  assert (Hc : 0 < c) by (apply pow2_pos; lia).
  assert (HK : 0 < K) by (apply pow2_pos; lia).
  assert (Ee : 2 ^ (e + 1074) = a1 * K * c).
  { subst a1 K c. rewrite <- !Z.pow_add_r by lia. f_equal. lia. }
  assert (ES : 2 ^ 1074 = S2 * c).
  { subst S2 c. rewrite <- Z.pow_add_r by lia. f_equal. lia. }
  rewrite Ee, ES.
  apply (abs_scale _ _ _ c) in Herr; [|lia].
  replace (Zpos m * (a1 * K * c) * Zpos pb - Zpos pa * (S2 * c))
    with (Zpos m * a1 * (K * Zpos pb) * c - Zpos pa * S2 * c) by ring.
  set (X := Z.abs (Zpos m * a1 * (K * Zpos pb) * c - Zpos pa * S2 * c)) in *.
  assert (Hrel : 2 ^ 52 * (K * Zpos pb * c) <= Zpos pa * S2 * c).
  { rewrite Z.pow_add_r in Hqk by lia. fold K in Hqk.
    assert (2 ^ 52 * K * Zpos pb <= Zpos pb * q)
      by (rewrite (Z.mul_comm (Zpos pb) q);
          apply Z.mul_le_mono_nonneg_r; lia).
    replace (2 ^ 52 * (K * Zpos pb * c)) with (2 ^ 52 * K * Zpos pb * c)
      by ring.
    apply Z.mul_le_mono_nonneg_r; lia. }
  change (2 ^ 53) with (2 ^ 52 * 2).
  replace (Zpos pa * (S2 * c)) with (Zpos pa * S2 * c) by ring. lia.
Qed.

(** *** Truncation and comparison *)

Lemma to_int_floor (m : positive) (e : Z) :
  - 1074 <= e ->
  exists n : Z,
    PyFloat.to_int (S754_finite false m e) = Ok n
    /\ 0 <= n
    /\ n * 2 ^ 1074 <= ulps (S754_finite false m e) < (n + 1) * 2 ^ 1074.
Proof.
  intros He. cbn [PyFloat.to_int ulps cond_Zopp]. unfold unit_exponent.
  destruct e as [|p|p].
  - exists (Zpos m). split; [reflexivity|]. simpl (0 + 1074).
    pose proof (pow2_pos 1074 ltac:(lia)). split; lia.
  - exists (Z.shiftl (Zpos m) (Zpos p)). split; [reflexivity|].
    rewrite Z.shiftl_mul_pow2 by lia.
    rewrite Z.pow_add_r by lia.
    pose proof (pow2_pos 1074 ltac:(lia)).
    pose proof (pow2_pos (Zpos p) ltac:(lia)).
    split; [nia|]. split; nia.
  - exists (Z.shiftr (Zpos m) (Zpos p)). split; [reflexivity|].
    rewrite Z.shiftr_div_pow2 by lia.
    set (c := 2 ^ (Zneg p + 1074)).
    assert (Hc : 0 < c) by (apply pow2_pos; lia).
    pose proof (pow2_pos (Zpos p) ltac:(lia)) as HP.
    assert (E : 2 ^ 1074 = 2 ^ Zpos p * c).
    { subst c. rewrite <- Z.pow_add_r by lia. f_equal. lia. }
    rewrite E.
    pose proof (Z.div_pos (Zpos m) (2 ^ Zpos p) ltac:(lia) HP).
    pose proof (Z.mul_div_le (Zpos m) (2 ^ Zpos p) HP).
    pose proof (Z.mul_succ_div_gt (Zpos m) (2 ^ Zpos p) HP).
    set (n := Zpos m / 2 ^ Zpos p) in *.
    split; [lia|]. split.
    + replace (n * (2 ^ Zpos p * c)) with (2 ^ Zpos p * n * c) by ring.
      apply Z.mul_le_mono_nonneg_r; lia.
    + replace ((n + 1) * (2 ^ Zpos p * c)) with (2 ^ Zpos p * Z.succ n * c)
        by ring.
      apply Z.mul_lt_mono_pos_r; lia.
Qed.

Lemma ulps_exponent_lt (ma mb : positive) (ea eb : Z) :
  2 ^ 52 <= Zpos ma < 2 ^ 53 -> 2 ^ 52 <= Zpos mb < 2 ^ 53 ->
  - 1074 <= eb -> eb < ea ->
  ulps (S754_finite false mb eb) < ulps (S754_finite false ma ea).
Proof.
  intros Ha Hb He Hlt. cbn [ulps cond_Zopp]. unfold unit_exponent.
  replace (ea + 1074) with ((ea - eb - 1) + 1 + (eb + 1074)) by lia.
  rewrite (Z.pow_add_r 2 (ea - eb - 1 + 1) (eb + 1074)) by lia.
  rewrite (Z.pow_add_r 2 (ea - eb - 1) 1) by lia. rewrite Z.pow_1_r.
  pose proof (pow2_pos (ea - eb - 1) ltac:(lia)).
  pose proof (pow2_pos (eb + 1074) ltac:(lia)).
  set (g := 2 ^ (eb + 1074)) in *. set (u := 2 ^ (ea - eb - 1)) in *.
  change (2 ^ 53) with (2 ^ 52 * 2) in *.
  assert (Zpos mb * g < 2 ^ 52 * 2 * g) by (apply Z.mul_lt_mono_pos_r; lia).
  assert (2 ^ 52 * (u * 2 * g) <= Zpos ma * (u * 2 * g))
    by (apply Z.mul_le_mono_nonneg_r; nia).
  nia.
Qed.

Lemma min_ulps (ma mb : positive) (ea eb : Z) :
  2 ^ 52 <= Zpos ma < 2 ^ 53 -> 2 ^ 52 <= Zpos mb < 2 ^ 53 ->
  - 1074 <= ea -> - 1074 <= eb ->
  let a := S754_finite false ma ea in
  let b := S754_finite false mb eb in
  (PyFloat.min a b = a /\ ulps a <= ulps b)
  \/ (PyFloat.min a b = b /\ ulps b < ulps a).
Proof.
  intros Ha Hb Hea Heb a b. subst a b.
  unfold PyFloat.min, SFltb, SFcompare.
  destruct (Z.compare_spec eb ea) as [E|Hlt|Hgt].
  - subst eb. change (Pos.compare_cont Eq mb ma) with (Pos.compare mb ma).
    pose proof (pow2_pos (ea + 1074) ltac:(lia)).
    destruct (Pos.compare_spec mb ma) as [E|Hlt|Hgt];
      cbn [ulps cond_Zopp]; unfold unit_exponent.
    + left. split; [reflexivity|]. subst mb. lia.
    + right. split; [reflexivity|].
      apply Z.mul_lt_mono_pos_r; lia.
    + left. split; [reflexivity|].
      apply Z.mul_le_mono_nonneg_r; lia.
  - right. split; [reflexivity|]. now apply ulps_exponent_lt.
  - left. split; [reflexivity|].
    apply Z.lt_le_incl. now apply ulps_exponent_lt.
Qed.

(** *** The arithmetic of fitting a box

    [S] is the unit, [U1] and [U2] the two ratios, [U] the smaller one, [Pw]
    and [Ph] the two products, all counted in units; every operation is off
    by a relative error of at most [2^-53]. *)

Lemma box_arithmetic (S U1 U2 U Pw Ph rw rh w h W H : Z) :
  0 < S -> 0 < w -> 0 < h -> 0 < W < 2 ^ 50 -> 0 < H < 2 ^ 50 ->
  2 ^ 53 * Z.abs (U1 * w - W * S) <= W * S ->
  2 ^ 53 * Z.abs (U2 * h - H * S) <= H * S ->
  (U = U1 /\ U1 <= U2) \/ (U = U2 /\ U2 < U1) ->
  2 ^ 53 * Z.abs (Pw - w * U) <= w * U ->
  2 ^ 53 * Z.abs (Ph - h * U) <= h * U ->
  rw * S <= Pw < (rw + 1) * S ->
  rh * S <= Ph < (rh + 1) * S ->
  rw <= W /\ rh <= H /\ (W - 1 <= rw \/ H - 1 <= rh)
  /\ Z.abs (rw * h - rh * w) < w + h.
Proof.
  intros HS Hw Hh HW HH F1 F2 Hmin F4 F5 F6 F7.
  change (2 ^ 53) with 9007199254740992 in *.
  change (2 ^ 50) with 1125899906842624 in *.
  assert (HU : U <= U1 /\ U <= U2) by lia.
  assert (M1 : w * U <= w * U1) by (apply Z.mul_le_mono_nonneg_l; lia).
  assert (M2 : h * U <= h * U2) by (apply Z.mul_le_mono_nonneg_l; lia).
  assert (M3 : W * S <= 1125899906842623 * S)
    by (apply Z.mul_le_mono_nonneg_r; lia).
  assert (M4 : H * S <= 1125899906842623 * S)
    by (apply Z.mul_le_mono_nonneg_r; lia).
  assert (G1 : rw <= W).
  { assert (rw * S < (W + 1) * S) by lia.
    assert (rw < W + 1) by (apply (Z.mul_lt_mono_pos_r S); lia). lia. }
  assert (G2 : rh <= H).
  { assert (rh * S < (H + 1) * S) by lia.
    assert (rh < H + 1) by (apply (Z.mul_lt_mono_pos_r S); lia). lia. }
  split; [exact G1|]. split; [exact G2|]. split.
  - destruct Hmin as [[E _]|[E _]]; subst U.
    + left. assert ((W - 2) * S < rw * S) by lia.
      assert (W - 2 < rw) by (apply (Z.mul_lt_mono_pos_r S); lia). lia.
    + right. assert ((H - 2) * S < rh * S) by lia.
      assert (H - 2 < rh) by (apply (Z.mul_lt_mono_pos_r S); lia). lia.
  - assert (A4 : 9007199254740992 * (Pw - w * U) <= w * U
                 /\ 9007199254740992 * (w * U - Pw) <= w * U) by lia.
    assert (A5 : 9007199254740992 * (Ph - h * U) <= h * U
                 /\ 9007199254740992 * (h * U - Ph) <= h * U) by lia.
    destruct A4 as [A4 A4'], A5 as [A5 A5'], F6 as [F6 F6'], F7 as [F7 F7'].
    assert (B1 : w * U < 2251799813685248 * S) by lia.
    assert (B2 : h * U < 2251799813685248 * S) by lia.
    pose proof (Z.mul_le_mono_nonneg_l _ _ h ltac:(lia) F6) as T1.
    pose proof (proj1 (Z.mul_lt_mono_pos_l h _ _ Hh) F6') as T2.
    pose proof (Z.mul_le_mono_nonneg_l _ _ w ltac:(lia) F7) as T3.
    pose proof (proj1 (Z.mul_lt_mono_pos_l w _ _ Hw) F7') as T4.
    pose proof (Z.mul_le_mono_nonneg_l _ _ h ltac:(lia) A4) as T5.
    pose proof (Z.mul_le_mono_nonneg_l _ _ h ltac:(lia) A4') as T5'.
    pose proof (Z.mul_le_mono_nonneg_l _ _ w ltac:(lia) A5) as T6.
    pose proof (Z.mul_le_mono_nonneg_l _ _ w ltac:(lia) A5') as T6'.
    pose proof (proj1 (Z.mul_lt_mono_pos_l h _ _ Hh) B1) as T7.
    pose proof (proj1 (Z.mul_lt_mono_pos_l w _ _ Hw) B2) as T8.
    assert (X1 : (rw * h - rh * w) * S < (w + h) * S) by lia.
    assert (X2 : (rh * w - rw * h) * S < (w + h) * S) by lia.
    apply Z.mul_lt_mono_pos_r in X1; [|exact HS].
    apply Z.mul_lt_mono_pos_r in X2; [|exact HS].
    lia.
Qed.

(** *** Signs: no operation on positive operands gives a negative result
    or a NaN *)

Lemma iter_pos_invariant {A : Type} (P : A -> Prop) (f : A -> A) :
  (forall x, P x -> P (f x)) ->
  forall (p : positive) (x : A), P x -> P (iter_pos f p x).
Proof.
  intros Hf. induction p as [p IH|p IH|]; intros x Hx; cbn [iter_pos]; auto.
Qed.

Lemma shr_1_nonneg (mrs : shr_record) :
  0 <= shr_m mrs -> 0 <= shr_m (shr_1 mrs).
Proof.
  destruct mrs as [m r s]. destruct m as [|[p|p|]|p]; simpl; lia.
Qed.

Lemma shr_fexp_nonneg (m e : Z) (l : location) :
  0 <= m ->
  0 <= shr_m (fst (shr_fexp PyFloat.prec PyFloat.emax m e l)).
Proof.
  intros Hm. unfold shr_fexp, shr.
  pose proof (proj2 (loc_of_record_of_loc m l)) as Em.
  destruct (fexp PyFloat.prec PyFloat.emax (Zdigits2 m + e) - e) as [|p|p];
    cbn [fst]; try (rewrite Em; exact Hm).
  apply (iter_pos_invariant (fun x => 0 <= shr_m x) shr_1 shr_1_nonneg).
  rewrite Em. exact Hm.
Qed.

Lemma round_nearest_even_nonneg (m : Z) (l : location) :
  0 <= m -> 0 <= round_nearest_even m l.
Proof.
  intros Hm. destruct l as [|[| |]]; cbn [round_nearest_even]; try lia.
  destruct (Z.even m); lia.
Qed.

Lemma round_aux_sign (m e : Z) (l : location) :
  0 <= m ->
  not_negative (binary_round_aux PyFloat.prec PyFloat.emax false m e l).
Proof.
  intros Hm. unfold binary_round_aux.
  pose proof (shr_fexp_nonneg m e l Hm) as H1.
  destruct (shr_fexp PyFloat.prec PyFloat.emax m e l) as [mrs1 e1].
  cbn [fst] in H1.
  pose proof (round_nearest_even_nonneg (shr_m mrs1)
                (loc_of_shr_record mrs1) H1) as H2.
  pose proof (shr_fexp_nonneg _ e1 loc_Exact H2) as H3.
  destruct (shr_fexp PyFloat.prec PyFloat.emax
              (round_nearest_even (shr_m mrs1) (loc_of_shr_record mrs1))
              e1 loc_Exact) as [mrs2 e2].
  cbn [fst] in H3.
  destruct (shr_m mrs2) as [|p|p]; try lia; cbn [not_negative]; auto.
  destruct (e2 <=? PyFloat.emax - PyFloat.prec); reflexivity.
Qed.

Lemma of_int_sign (n : Z) :
  0 < n ->
  match PyFloat.of_int n with
  | Ok f => finite_nonneg f
  | Raise e => e = OverflowError
  end.
Proof.
  intros Hn. destruct n as [|p|p]; try lia.
  unfold PyFloat.of_int, binary_normalize, binary_round.
  destruct (shl_align p 0 _) as [mz ez].
  pose proof (round_aux_sign (Zpos mz) ez loc_Exact ltac:(lia)) as H.
  destruct (binary_round_aux PyFloat.prec PyFloat.emax false (Zpos mz) ez
              loc_Exact) as [s|s| |s m e]; cbn [not_negative] in H;
    cbn [finite_nonneg]; subst; auto; contradiction.
Qed.

Lemma int_truediv_sign (a b : Z) :
  0 < a -> 0 < b ->
  match PyFloat.int_truediv a b with
  | Ok f => finite_nonneg f
  | Raise e => e = OverflowError
  end.
Proof.
  intros Ha Hb.
  destruct a as [|pa|pa]; try lia. destruct b as [|pb|pb]; try lia.
  unfold PyFloat.int_truediv.
  cbn [Z.ltb Z.compare Z.abs Z.to_pos SFdiv xorb].
  assert (Hq : forall q ez lz,
             SFdiv_core_binary PyFloat.prec PyFloat.emax (Zpos pa) 0
               (Zpos pb) 0 = (q, ez, lz) -> 0 <= q).
  { unfold SFdiv_core_binary. intros q ez lz.
    match goal with
    | |- context [Z.div_eucl ?x ?y] =>
        pose proof (Z_div_mod x y ltac:(lia)) as Hdiv;
        assert (Hx : 0 <= x);
        [| destruct (Z.div_eucl x y) as [q' r'] ]
    end.
    - destruct (0 - 0 - _) as [|ps|ps]; try lia.
      rewrite Z.shiftl_mul_pow2 by lia.
      pose proof (pow2_pos (Zpos ps) ltac:(lia)). nia.
    - intros E. inversion E; subst. nia. }
  destruct (SFdiv_core_binary PyFloat.prec PyFloat.emax (Zpos pa) 0
              (Zpos pb) 0) as [[q ez] lz] eqn:Ec.
  pose proof (round_aux_sign q ez lz (Hq q ez lz eq_refl)) as H.
  destruct (binary_round_aux PyFloat.prec PyFloat.emax false q ez lz)
    as [s|s| |s m e]; cbn [not_negative] in H;
    cbn [finite_nonneg]; subst; auto; contradiction.
Qed.

Lemma to_int_sign (x : PyFloat.float) :
  not_negative x ->
  match PyFloat.to_int x with
  | Ok k => 0 <= k
  | Raise e => e = OverflowError
  end.
Proof.
  destruct x as [s|s| |s m e]; cbn [not_negative PyFloat.to_int];
    intros H; try lia; try reflexivity; try contradiction.
  subst s. cbn [cond_Zopp].
  destruct e as [|p|p]; try lia.
  - rewrite Z.shiftl_mul_pow2 by lia.
    pose proof (pow2_pos (Zpos p) ltac:(lia)). nia.
  - apply Z.shiftr_nonneg. lia.
Qed.

Lemma int_of_ratio_sign (n : Z) (x : PyFloat.float) :
  0 < n -> finite_nonneg x ->
  match int_of_ratio n x with
  | Ok k => 0 <= k
  | Raise e => e = OverflowError
  end.
Proof.
  intros Hn Hx. unfold int_of_ratio, PyFloat.int_mul.
  pose proof (of_int_sign n Hn) as Hf.
  destruct (PyFloat.of_int n) as [f|e]; cbn [bind]; [|exact Hf].
  apply to_int_sign.
  destruct f as [s|s| |[|] m e]; cbn [finite_nonneg] in Hf; try contradiction;
    destruct x as [t|t| |[|] m' e']; cbn [finite_nonneg] in Hx;
    try contradiction; cbn [SFmul not_negative xorb]; auto.
  apply round_aux_sign. lia.
Qed.

Lemma min_finite_nonneg (a b : PyFloat.float) :
  finite_nonneg a -> finite_nonneg b -> finite_nonneg (PyFloat.min a b).
Proof.
  intros Ha Hb. unfold PyFloat.min. destruct (SFltb b a); assumption.
Qed.

(** *** The truncated product is defined on ordinary operands *)

(** [int(n * x)] is the integer part of a value within [2^-53], relatively,
    of the exact product of [n] and [x]. *)
Lemma int_of_ratio_truncates (n : Z) (m : positive) (e : Z) :
  0 < n < 2 ^ 53 -> 2 ^ 52 <= Zpos m < 2 ^ 53 -> - 1074 <= e <= 917 ->
  exists k : Z,
    int_of_ratio n (S754_finite false m e) = Ok k
    /\ 0 <= k
    /\ 2 ^ 53 * (k * 2 ^ 1074)
       <= (2 ^ 53 + 1) * (n * ulps (S754_finite false m e))
    /\ (2 ^ 53 - 1) * (n * ulps (S754_finite false m e))
       < 2 ^ 53 * ((k + 1) * 2 ^ 1074).
Proof.
  intros Hn Hm He.
  destruct (int_mul_normal n m e Hn Hm He) as [mp [ep [Ep [_ [Xp F]]]]].
  destruct (to_int_floor mp ep ltac:(lia)) as [k [Ek [Hk Hfl]]].
  exists k. unfold int_of_ratio. rewrite Ep.
  split; [exact Ek|]. split; [exact Hk|].
  change (2 ^ 53) with 9007199254740992 in *. lia.
Qed.

Lemma int_of_ratio_total (n : Z) (m : positive) (e : Z) :
  0 < n < 2 ^ 53 -> 2 ^ 52 <= Zpos m < 2 ^ 53 -> - 1074 <= e <= 917 ->
  exists k : Z, int_of_ratio n (S754_finite false m e) = Ok k.
Proof.
  intros Hn Hm He.
  destruct (int_of_ratio_truncates n m e Hn Hm He) as [k [Ek _]].
  exists k. exact Ek.
Qed.

Lemma int_truediv_total (a b : Z) :
  0 < a < 2 ^ 53 -> 0 < b < 2 ^ 53 ->
  exists (m : positive) (e : Z),
    PyFloat.int_truediv a b = Ok (S754_finite false m e)
    /\ 2 ^ 52 <= Zpos m < 2 ^ 53 /\ - 1074 <= e <= 917.
Proof.
  intros Ha Hb.
  destruct (int_truediv_normal a b Ha Hb) as [m [e [E [Hm [He _]]]]].
  exists m, e. repeat split; try assumption; lia.
Qed.

(** *** Exact results: operands whose product or quotient is a double *)

Lemma abs_half_zero (X c : Z) : 0 < c -> 2 * Z.abs (X * c) <= c -> X = 0.
Proof.
  intros Hc H. rewrite Z.abs_mul, (Z.abs_eq c) in H by lia. nia.
Qed.

Lemma pow2_lt_exponent (a b : Z) : 0 <= a -> 0 <= b -> 2 ^ a < 2 ^ b -> a < b.
Proof. intros Ha Hb H. apply (Z.pow_lt_mono_r_iff 2); lia. Qed.

(** When the mantissa of [x] is [K * 2^i] and [n * K] is below [2^53], the
    double product [n * x] is the exact product. *)
Lemma int_mul_exact (n K i : Z) (my : positive) (ey : Z) :
  0 < n < 2 ^ 53 -> 2 ^ 52 <= Zpos my < 2 ^ 53 -> - 1074 <= ey <= 917 ->
  0 <= i -> Zpos my = K * 2 ^ i -> n * K < 2 ^ 53 ->
  exists (mp : positive) (ep : Z),
    PyFloat.int_mul n (S754_finite false my ey) = Ok (S754_finite false mp ep)
    /\ - 1074 <= ep
    /\ ulps (S754_finite false mp ep) = n * ulps (S754_finite false my ey).
Proof.
  intros Hw Hmy Hey Hi EK HnK.
  destruct (of_int_exact n Hw) as [mx [ex [Eof [Hmx [Hex Emx]]]]].
  unfold PyFloat.int_mul. rewrite Eof. cbn [bind SFmul xorb].
  set (P := Zpos (mx * my)).
  assert (HP : 2 ^ 104 <= P < 2 ^ 106).
  { subst P. rewrite Pos2Z.inj_mul.
    change (2 ^ 104) with (2 ^ 52 * 2 ^ 52).
    change (2 ^ 106) with (2 ^ 53 * 2 ^ 53). nia. }
  pose proof (Zdigits2_bounds P ltac:(lia)) as Hd.
  set (k := Zdigits2 P - 53).
  assert (Hk : 52 <= k <= 53).
  { subst k. split.
    - destruct (Z_le_gt_dec 105 (Zdigits2 P)) as [|Hgt]; [lia|].
      assert (2 ^ Zdigits2 P <= 2 ^ 104) by (apply Z.pow_le_mono_r; lia). lia.
    - destruct (Z_le_gt_dec (Zdigits2 P) 106) as [|Hgt]; [lia|].
      assert (2 ^ 106 <= 2 ^ (Zdigits2 P - 1))
        by (apply Z.pow_le_mono_r; lia). lia. }
  assert (HPk : 2 ^ (52 + k) <= P < 2 ^ (53 + k)).
  { replace (52 + k) with (Zdigits2 P - 1) by (subst k; lia).
    replace (53 + k) with (Zdigits2 P) by (subst k; lia). exact Hd. }
  destruct (round_aux_normal P (ex + ey) k loc_Exact P 1)
    as [mp [ep [E [Hn [He Herr]]]]]; try lia.
  { cbn [located]. lia. }
  rewrite E. exists mp, ep. split; [reflexivity|]. split; [lia|].
  cbn [ulps cond_Zopp]. unfold unit_exponent.
  set (t := - ex) in *.
  set (a1 := 2 ^ (ep - (ex + ey) - k)) in *.
  set (c := 2 ^ (k - t)).
  set (g := 2 ^ (ey + 1074)).
  set (T := 2 ^ t) in *.
  assert (HT : 0 < T) by (apply pow2_pos; subst t; lia).
  assert (Hc : 0 < c) by (apply pow2_pos; subst t; lia).
  assert (Ek : 2 ^ k = c * T).
  { subst c T. rewrite <- Z.pow_add_r by (subst t; lia). f_equal. lia. }
  assert (Eep : 2 ^ (ep + 1074) = a1 * c * g).
  { subst a1 c g. rewrite <- !Z.pow_add_r by (subst t; lia).
    f_equal. subst t. lia. }
  rewrite Eep.
  assert (EP : P = n * Zpos my * T).
  { subst P. rewrite Pos2Z.inj_mul, Emx. ring. }
  rewrite Ek, Z.mul_1_r in Herr. rewrite EP in Herr.
  replace (Zpos mp * a1 * (c * T) - n * Zpos my * T)
    with ((Zpos mp * a1 * c - n * Zpos my) * T) in Herr by ring.
  apply abs_unscale in Herr; [|exact HT].
  assert (Hrel : 2 ^ 52 * c <= n * Zpos my).
  { rewrite Z.pow_add_r in HPk by lia. rewrite Ek, EP in HPk.
    apply (Z.mul_le_mono_pos_r _ _ T); [exact HT|]. nia. }
  (* the mantissa has at least [k - t] trailing zeros *)
  assert (Hik : k - t <= i).
  { pose proof (pow2_pos i Hi) as HI.
    assert (Hlt : 2 ^ (k - t) < 2 ^ (i + 1)).
    { rewrite Z.pow_add_r, Z.pow_1_r by lia. fold c.
      rewrite EK in Hrel.
      change (2 ^ 53) with (2 ^ 52 * 2) in HnK.
      assert (H1 : n * K * 2 ^ i < 2 ^ 52 * 2 * 2 ^ i)
        by (apply Z.mul_lt_mono_pos_r; assumption).
      apply (Z.mul_lt_mono_pos_l (2 ^ 52)); [reflexivity|].
      replace (n * (K * 2 ^ i)) with (n * K * 2 ^ i) in Hrel by ring.
      replace (2 ^ 52 * (2 ^ i * 2)) with (2 ^ 52 * 2 * 2 ^ i) by ring.
      lia. }
    apply pow2_lt_exponent in Hlt; subst t; lia. }
  set (Q := n * K * 2 ^ (i - (k - t))).
  assert (EQ : n * Zpos my = Q * c).
  { subst Q c. rewrite EK. rewrite <- Z.mul_assoc, <- Z.pow_add_r by lia.
    replace (i - (k - t) + (k - t)) with i by lia. ring. }
  rewrite EQ in Herr.
  replace (Zpos mp * a1 * c - Q * c) with ((Zpos mp * a1 - Q) * c) in Herr
    by ring.
  apply abs_half_zero in Herr; [|exact Hc].
  replace (Zpos mp * (a1 * c * g)) with (Zpos mp * a1 * c * g) by ring.
  replace (Zpos mp * a1) with Q by lia.
  rewrite <- EQ. ring.
Qed.

(** [int(n * x)] is then the exact product truncated. *)
Lemma int_of_ratio_exact (n K i : Z) (my : positive) (ey : Z) :
  0 < n < 2 ^ 53 -> 2 ^ 52 <= Zpos my < 2 ^ 53 -> - 1074 <= ey <= 917 ->
  0 <= i -> Zpos my = K * 2 ^ i -> n * K < 2 ^ 53 ->
  int_of_ratio n (S754_finite false my ey)
  = Ok (n * ulps (S754_finite false my ey) / 2 ^ 1074).
Proof.
  intros Hn Hmy Hey Hi EK HnK.
  destruct (int_mul_exact n K i my ey Hn Hmy Hey Hi EK HnK)
    as [mp [ep [Ep [Hep Eu]]]].
  destruct (to_int_floor mp ep Hep) as [r [Er [Hr Hfl]]].
  unfold int_of_ratio. rewrite Ep. cbn [bind]. rewrite Er. f_equal.
  rewrite Eu in Hfl.
  pose proof (pow2_pos 1074 ltac:(lia)) as HS.
  apply (Z.div_unique _ _ r
           (n * ulps (S754_finite false my ey) - 2 ^ 1074 * r)); lia.
Qed.

(** The quotient of a multiple [K * b] by [b] is the double [K]. *)
Lemma int_truediv_multiple (K b : Z) :
  0 < b -> 0 < K -> K * b < 2 ^ 53 ->
  exists (m : positive) (e : Z),
    PyFloat.int_truediv (K * b) b = Ok (S754_finite false m e)
    /\ 2 ^ 52 <= Zpos m < 2 ^ 53
    /\ - 105 <= e <= 0
    /\ Zpos m = K * 2 ^ (- e)
    /\ ulps (S754_finite false m e) = K * 2 ^ 1074.
Proof.
  intros Hb HK HKb.
  assert (Ha : 0 < K * b < 2 ^ 53) by nia.
  assert (Hb' : 0 < b < 2 ^ 53) by nia.
  assert (HK' : K < 2 ^ 53) by nia.
  destruct (div_core_located (K * b) b Ha Hb')
    as [q [s [l [Ec [Hs [Hl [Hq Hqb]]]]]]].
  destruct (K * b) as [|pa|pa] eqn:Ea; try lia.
  destruct b as [|pb|pb] eqn:Eb; try lia.
  unfold PyFloat.int_truediv.
  cbn [Z.ltb Z.compare Z.abs Z.to_pos SFdiv xorb].
  rewrite Ec.
  pose proof (Zdigits2_bounds q ltac:(lia)) as Hd.
  set (k := Zdigits2 q - 53).
  assert (Hk : 0 <= k <= 1).
  { subst k. split.
    - destruct (Z_le_gt_dec 53 (Zdigits2 q)) as [|Hgt]; [lia|].
      assert (2 ^ Zdigits2 q <= 2 ^ 52) by (apply Z.pow_le_mono_r; lia). lia.
    - destruct (Z_le_gt_dec (Zdigits2 q) 54) as [|Hgt]; [lia|].
      assert (2 ^ 54 <= 2 ^ (Zdigits2 q - 1))
        by (apply Z.pow_le_mono_r; lia). lia. }
  assert (Hqk : 2 ^ (52 + k) <= q < 2 ^ (53 + k)).
  { replace (52 + k) with (Zdigits2 q - 1) by (subst k; lia).
    replace (53 + k) with (Zdigits2 q) by (subst k; lia). exact Hd. }
  destruct (round_aux_normal q (- s) k l (Zpos pa * 2 ^ s) (Zpos pb))
    as [m [e [E [Hn [He Herr]]]]]; try lia; try assumption.
  rewrite E. exists m, e. split; [reflexivity|]. split; [exact Hn|].
  set (a1 := 2 ^ (e - - s - k)) in *.
  set (c := 2 ^ (1074 - s)).
  set (K2 := 2 ^ k) in *.
  set (R := 2 ^ (s - k)).
  assert (Hc : 0 < c) by (apply pow2_pos; lia).
  assert (HK2 : 0 < K2) by (apply pow2_pos; lia).
  assert (HR : 0 < R) by (apply pow2_pos; lia).
  assert (Ha1 : 0 < a1) by (apply pow2_pos; lia).
  assert (Ee : 2 ^ (e + 1074) = a1 * K2 * c).
  { subst a1 K2 c. rewrite <- !Z.pow_add_r by lia. f_equal. lia. }
  assert (ES : 2 ^ 1074 = R * K2 * c).
  { subst R K2 c. rewrite <- !Z.pow_add_r by lia. f_equal. lia. }
  assert (Es : 2 ^ s = R * K2).
  { subst R K2. rewrite <- Z.pow_add_r by lia. f_equal. lia. }
  rewrite <- Ea, Es in Herr.
  replace (Zpos m * a1 * (K2 * Zpos pb) - K * Zpos pb * (R * K2))
    with ((Zpos m * a1 - K * R) * (K2 * Zpos pb)) in Herr by ring.
  apply abs_half_zero in Herr; [|nia].
  assert (EM : Zpos m * a1 = K * R) by lia.
  assert (Eu : ulps (S754_finite false m e) = K * 2 ^ 1074).
  { cbn [ulps cond_Zopp]. unfold unit_exponent. rewrite Ee, ES.
    replace (Zpos m * (a1 * K2 * c)) with (Zpos m * a1 * (K2 * c)) by ring.
    rewrite EM. ring. }
  assert (He0 : e <= 0).
  { destruct (Z_le_gt_dec e 0) as [|Hgt]; [assumption|].
    assert (e = 1) by lia. subst e.
    cbn [ulps cond_Zopp] in Eu. unfold unit_exponent in Eu.
    replace (1 + 1074) with (1074 + 1) in Eu by lia.
    rewrite Z.pow_add_r, Z.pow_1_r in Eu by lia.
    pose proof (pow2_pos 1074 ltac:(lia)) as HS.
    assert (Zpos m * 2 = K).
    { apply (Z.mul_cancel_r _ _ (2 ^ 1074)); [lia|].
      rewrite <- Eu. ring. }
    change (2 ^ 53) with (2 ^ 52 * 2) in HK'. lia. }
  split; [lia|]. split; [|exact Eu].
  cbn [ulps cond_Zopp] in Eu. unfold unit_exponent in Eu.
  assert (E2 : 2 ^ 1074 = 2 ^ (- e) * 2 ^ (e + 1074))
    by (rewrite <- Z.pow_add_r by lia; f_equal; lia).
  rewrite E2 in Eu.
  pose proof (pow2_pos (e + 1074) ltac:(lia)) as Hg.
  apply (Z.mul_cancel_r _ _ (2 ^ (e + 1074))); [lia|].
  rewrite Eu. ring.
Qed.

(** *** The arithmetic of one ratio

    [U] is the ratio [A / b], [P] the product [n * U] and [r] its integer
    part, every operation off by a relative error of at most [2^-53]. *)

Lemma ratio_arithmetic (S U P r n A b : Z) :
  0 < S -> 0 < n -> 0 < b -> 0 < A ->
  2 ^ 53 * Z.abs (U * b - A * S) <= A * S ->
  2 ^ 53 * Z.abs (P - n * U) <= n * U ->
  r * S <= P < (r + 1) * S ->
  2 ^ 106 * (r * b) <= (2 ^ 53 + 1) ^ 2 * (n * A)
  /\ (2 ^ 53 - 1) ^ 2 * (n * A) < 2 ^ 106 * ((r + 1) * b).
Proof.
  intros HS Hn Hb HA F1 F4 [F6 F6'].
  change (2 ^ 106) with 81129638414606681695789005144064.
  change ((2 ^ 53 + 1) ^ 2) with 81129638414606699710187514626049.
  change ((2 ^ 53 - 1) ^ 2) with 81129638414606663681390495662081.
  change (2 ^ 53) with 9007199254740992 in *.
  assert (A1 : 9007199254740992 * (U * b - A * S) <= A * S
               /\ 9007199254740992 * (A * S - U * b) <= A * S) by lia.
  assert (A4 : 9007199254740992 * (P - n * U) <= n * U
               /\ 9007199254740992 * (n * U - P) <= n * U) by lia.
  destruct A1 as [A1 A1'], A4 as [A4 A4'].
  pose proof (Z.mul_le_mono_nonneg_l _ _ n ltac:(lia) A1) as T1.
  pose proof (Z.mul_le_mono_nonneg_l _ _ n ltac:(lia) A1') as T1'.
  pose proof (Z.mul_le_mono_nonneg_l _ _ b ltac:(lia) A4) as T4.
  pose proof (Z.mul_le_mono_nonneg_l _ _ b ltac:(lia) A4') as T4'.
  pose proof (Z.mul_le_mono_nonneg_l _ _ b ltac:(lia) F6) as T6.
  pose proof (proj1 (Z.mul_lt_mono_pos_l b _ _ Hb) F6') as T6'.
  split.
  - apply (Z.mul_le_mono_pos_r _ _ S); [exact HS|]. lia.
  - apply (Z.mul_lt_mono_pos_r S); [exact HS|]. lia.
Qed.

End Binary64.

(** * Properties of the size calculator *)

Section CalculateSize.

Implicit Types (w h W H : Z) (width height : option Z)
  (scale : option number) (maintain_aspect : bool).

(** The scenarios of the specification. *)
Example scenario_width_only :
  _calculate_size (1000, 500) (Some 800) None None true = Ok (800, 400).
Proof. reflexivity. Qed.

Example scenario_box_keep_aspect :
  _calculate_size (1000, 500) (Some 800) (Some 800) None true
  = Ok (800, 400).
Proof. reflexivity. Qed.

Example scenario_scale_half :
  _calculate_size (1000, 500) None None (Some (PyFlt flt_0_5)) true
  = Ok (500, 250).
Proof. reflexivity. Qed.

Lemma given_number_truthy (s : number) :
  number_truthy s = true -> given_number (Some s) = Some s.
Proof. intros Hs; simpl; now rewrite Hs. Qed.

Lemma given_int_nonzero (n : Z) : n <> 0 -> given_int (Some n) = Some n.
Proof.
  intros Hn; simpl. destruct (Z.eqb_spec n 0); [contradiction | reflexivity].
Qed.

Lemma calculate_size_effective (sz : size) width height scale maintain_aspect :
  _calculate_size sz width height scale maintain_aspect
  = apply_policy (effective_policy width height scale) sz maintain_aspect.
Proof.
  destruct sz as [orig_w orig_h].
  unfold _calculate_size, effective_policy, scale_policy, box_policy,
    width_policy, height_policy.
  destruct (given_number scale) as [s|]; simpl; [reflexivity|].
  destruct (given_int width) as [W|], (given_int height) as [H|];
    simpl; try reflexivity.
Qed.

Lemma number_positive_truthy (s : number) :
  number_positive s = true -> number_truthy s = true.
Proof.
  destruct s as [n|x]; simpl.
  - intros Hn. apply Z.ltb_lt in Hn.
    destruct (Z.eqb_spec n 0); [lia | reflexivity].
  - destruct x as [b|b| |[|] m e]; simpl; congruence.
Qed.

Lemma int_of_scaled_sign (n : Z) (s : number) :
  (0 < n)%Z -> number_positive s = true ->
  match int_of_scaled n s with
  | Ok k => (0 <= k)%Z
  | Raise e => e = OverflowError
  end.
Proof.
  intros Hn Hs. destruct s as [k|x]; cbn [int_of_scaled].
  - cbn [number_positive] in Hs. apply Z.ltb_lt in Hs. nia.
  - apply (int_of_ratio_sign n x Hn).
    destruct x as [b|b| |[|] m e]; cbn [number_positive] in Hs;
      try discriminate. exact I.
Qed.

Lemma int_of_scaled_total (n : Z) (s : number) :
  (0 < n < 2 ^ 53)%Z -> number_positive s = true ->
  ordinary_scale (Some s) ->
  exists k : Z, int_of_scaled n s = Ok k.
Proof.
  intros Hn Hs Ho. destruct s as [k|x]; cbn [int_of_scaled].
  - eexists; reflexivity.
  - destruct x as [b|b| |[|] m e]; cbn [number_positive] in Hs;
      try discriminate.
    cbn [ordinary_scale] in Ho. destruct Ho as [Hm He].
    apply (int_of_ratio_total n m e Hn Hm He).
Qed.

Ltac case_result H :=
  match type of H with
  | match ?r with Ok _ => _ | Raise _ => _ end =>
      let e := fresh "e" in
      destruct r as [?|e]; cbn [bind]; [|exact H]
  end.




(** C2, as the program has it: on the documented domain both components of
    the result are integers that are not negative (either may be zero), and
    the only exception the calculator can raise is an overflow; on sizes of
    ordinary magnitude it returns a size. *)
Theorem calculate_size_not_negative w h width height scale maintain_aspect :
  (0 < w)%Z -> (0 < h)%Z ->
  positive_or_absent width -> positive_or_absent height ->
  positive_scale_or_absent scale ->
  match _calculate_size (w, h) width height scale maintain_aspect with
  | Ok (rw, rh) => (0 <= rw)%Z /\ (0 <= rh)%Z
  | Raise e => e = OverflowError
  end
  /\ ((w < 2 ^ 50)%Z -> (h < 2 ^ 50)%Z ->
      below_or_absent (2 ^ 50) width -> below_or_absent (2 ^ 50) height ->
      ordinary_scale scale ->
      exists rw rh : Z,
        _calculate_size (w, h) width height scale maintain_aspect
        = Ok (rw, rh)).
Proof.
  intros Hw Hh Hwidth Hheight Hscale.
  assert (P50 : (2 ^ 50 < 2 ^ 53)%Z) by reflexivity.
  unfold _calculate_size.
  destruct scale as [s|].
  - cbn [positive_scale_or_absent] in Hscale.
    rewrite (given_number_truthy s (number_positive_truthy s Hscale)).
    split.
    + pose proof (int_of_scaled_sign w s Hw Hscale) as H1.
      pose proof (int_of_scaled_sign h s Hh Hscale) as H2.
      case_result H1. case_result H2. split; assumption.
    + intros Bw Bh _ _ Ho.
      destruct (int_of_scaled_total w s ltac:(lia) Hscale Ho) as [nw E1].
      destruct (int_of_scaled_total h s ltac:(lia) Hscale Ho) as [nh E2].
      exists nw, nh. now rewrite E1, E2.
  - cbn [given_number].
    destruct width as [W|], height as [H|];
      cbn [positive_or_absent] in Hwidth, Hheight;
      rewrite ?given_int_nonzero by lia; cbn [given_int].
    + destruct maintain_aspect.
      * split.
        -- pose proof (int_truediv_sign W w Hwidth Hw) as H1.
           case_result H1.
           pose proof (int_truediv_sign H h Hheight Hh) as H2.
           case_result H2.
           pose proof (min_finite_nonneg _ _ H1 H2) as Hm.
           pose proof (int_of_ratio_sign w _ Hw Hm) as H3.
           case_result H3.
           pose proof (int_of_ratio_sign h _ Hh Hm) as H4.
           case_result H4. split; assumption.
        -- intros Bw Bh BW BH _. cbn [below_or_absent] in BW, BH.
           destruct (int_truediv_total W w ltac:(lia) ltac:(lia))
             as [m1 [e1 [E1 [N1 X1]]]].
           destruct (int_truediv_total H h ltac:(lia) ltac:(lia))
             as [m2 [e2 [E2 [N2 X2]]]].
           rewrite E1, E2. cbn [bind].
           assert (Hmin : exists m e,
                      PyFloat.min (S754_finite false m1 e1)
                        (S754_finite false m2 e2) = S754_finite false m e
                      /\ (2 ^ 52 <= Zpos m < 2 ^ 53)%Z
                      /\ (- 1074 <= e <= 917)%Z).
           { unfold PyFloat.min. destruct (SFltb _ _); eauto. }
           destruct Hmin as [m [e [Em [Nm Xm]]]]. rewrite Em.
           destruct (int_of_ratio_total w m e ltac:(lia) Nm Xm) as [nw E3].
           destruct (int_of_ratio_total h m e ltac:(lia) Nm Xm) as [nh E4].
           exists nw, nh. now rewrite E3, E4.
      * split; [split; lia | eauto].
    + split.
      * pose proof (int_truediv_sign W w Hwidth Hw) as H1.
        case_result H1.
        pose proof (int_of_ratio_sign h _ Hh H1) as H3.
        case_result H3. split; [lia | assumption].
      * intros Bw Bh BW _ _. cbn [below_or_absent] in BW.
        destruct (int_truediv_total W w ltac:(lia) ltac:(lia))
          as [m1 [e1 [E1 [N1 X1]]]].
        rewrite E1. cbn [bind].
        destruct (int_of_ratio_total h m1 e1 ltac:(lia) N1 X1) as [nh E3].
        exists W, nh. now rewrite E3.
    + split.
      * pose proof (int_truediv_sign H h Hheight Hh) as H1.
        case_result H1.
        pose proof (int_of_ratio_sign w _ Hw H1) as H3.
        case_result H3. split; [assumption | lia].
      * intros Bw Bh _ BH _. cbn [below_or_absent] in BH.
        destruct (int_truediv_total H h ltac:(lia) ltac:(lia))
          as [m1 [e1 [E1 [N1 X1]]]].
        rewrite E1. cbn [bind].
        destruct (int_of_ratio_total w m1 e1 ltac:(lia) N1 X1) as [nw E3].
        exists nw, H. now rewrite E3.
    + split; [split; lia | eauto].
Qed.

Lemma calculate_size_not_negative_witness :
  match _calculate_size (1000, 1) (Some 10%Z) None None true with
  | Ok (rw, rh) => (0 <= rw)%Z /\ (0 <= rh)%Z
  | Raise e => e = OverflowError
  end
  /\ exists rw rh : Z,
      _calculate_size (1000, 1) (Some 10%Z) None None true = Ok (rw, rh).
Proof.
  destruct (calculate_size_not_negative 1000 1 (Some 10%Z) None None true
              eq_refl eq_refl eq_refl I I) as [Hsign Htotal].
  split; [exact Hsign|].
  exact (Htotal eq_refl eq_refl eq_refl I I).
Defined.

(** C2 as stated fails: a scaled dimension below one truncates to zero.
    Halving the size (1000, 1) gives (500, 0). *)
Lemma positive_size_counterexample :
  number_positive (PyFlt flt_0_5) = true
  /\ _calculate_size (1000, 1) None None (Some (PyFlt flt_0_5)) true
     = Ok (500, 0)%Z
  /\ _calculate_size (1000, 1) (Some 10%Z) None None true = Ok (10, 0)%Z.
Proof. repeat split; reflexivity. Qed.

(** C3, as the program has it: for an original size and a requested box
    with all four dimensions below 2^50, with the aspect flag and without a
    scale, the calculator returns a size [(rw, rh)] that fits the box, that
    reaches one of the two bounds to within one pixel, and whose sides have
    the ratio of the original ones up to the truncation; both sides are the
    original ones multiplied by one factor, the smaller of the two doubles
    [W / w] and [H / h], each within [2^-53] of the exact quotient. *)
Theorem calculate_size_fits_box w h W H :
  (0 < w < 2 ^ 50)%Z -> (0 < h < 2 ^ 50)%Z ->
  (0 < W < 2 ^ 50)%Z -> (0 < H < 2 ^ 50)%Z ->
  exists (rw rh : Z) (ratio_w ratio_h : PyFloat.float),
    PyFloat.int_truediv W w = Ok ratio_w
    /\ PyFloat.int_truediv H h = Ok ratio_h
    /\ (2 ^ 53 * Z.abs (ulps ratio_w * w - W * 2 ^ 1074) <= W * 2 ^ 1074)%Z
    /\ (2 ^ 53 * Z.abs (ulps ratio_h * h - H * 2 ^ 1074) <= H * 2 ^ 1074)%Z
    /\ ulps (PyFloat.min ratio_w ratio_h)
       = Z.min (ulps ratio_w) (ulps ratio_h)
    /\ int_of_ratio w (PyFloat.min ratio_w ratio_h) = Ok rw
    /\ int_of_ratio h (PyFloat.min ratio_w ratio_h) = Ok rh
    /\ _calculate_size (w, h) (Some W) (Some H) None true = Ok (rw, rh)
    /\ (0 <= rw <= W)%Z /\ (0 <= rh <= H)%Z
    /\ (W - 1 <= rw \/ H - 1 <= rh)%Z
    /\ (Z.abs (rw * h - rh * w) < w + h)%Z.
Proof.
  intros Hw Hh HW HH.
  assert (P50 : (2 ^ 50 < 2 ^ 53)%Z) by reflexivity.
  destruct (int_truediv_normal W w ltac:(lia) ltac:(lia))
    as [m1 [e1 [E1 [N1 [X1 F1]]]]].
  destruct (int_truediv_normal H h ltac:(lia) ltac:(lia))
    as [m2 [e2 [E2 [N2 [X2 F2]]]]].
  set (r1 := S754_finite false m1 e1) in *.
  set (r2 := S754_finite false m2 e2) in *.
  assert (Hmin : exists (m : positive) (e : Z),
             PyFloat.min r1 r2 = S754_finite false m e
             /\ (2 ^ 52 <= Zpos m < 2 ^ 53)%Z /\ (- 105 <= e <= 1)%Z
             /\ ((ulps (PyFloat.min r1 r2) = ulps r1 /\ ulps r1 <= ulps r2)
                 \/ (ulps (PyFloat.min r1 r2) = ulps r2
                     /\ ulps r2 < ulps r1))%Z).
  { destruct (min_ulps m1 m2 e1 e2 N1 N2 ltac:(lia) ltac:(lia))
      as [[Em Hle]|[Em Hlt]]; fold r1 r2 in Em, Hle || fold r1 r2 in Em, Hlt;
      rewrite Em.
    - exists m1, e1. repeat split; lia.
    - exists m2, e2. repeat split; lia. }
  destruct Hmin as [m [e [Em [Nm [Xm Hcase]]]]].
  destruct (int_mul_normal w m e ltac:(lia) Nm ltac:(lia))
    as [mp [ep [Ep [Np [Xp F4]]]]].
  destruct (int_mul_normal h m e ltac:(lia) Nm ltac:(lia))
    as [mq [eq [Eq' [Nq [Xq F5]]]]].
  destruct (to_int_floor mp ep ltac:(lia)) as [rw [Erw [Hrw0 F6]]].
  destruct (to_int_floor mq eq ltac:(lia)) as [rh [Erh [Hrh0 F7]]].
  rewrite <- Em in F4, F5.
  pose proof (pow2_pos 1074 ltac:(lia)) as HS.
  assert (Hcase' : (ulps (PyFloat.min r1 r2) = ulps r1 /\ ulps r1 <= ulps r2
                    \/ ulps (PyFloat.min r1 r2) = ulps r2
                       /\ ulps r2 < ulps r1)%Z) by exact Hcase.
  destruct (box_arithmetic _ _ _ _ _ _ rw rh w h W H HS
              ltac:(lia) ltac:(lia) HW HH F1 F2 Hcase' F4 F5 F6 F7)
    as [G1 [G2 [G3 G4]]].
  assert (Iw : int_of_ratio w (PyFloat.min r1 r2) = Ok rw).
  { unfold int_of_ratio. rewrite Em, Ep. exact Erw. }
  assert (Ih : int_of_ratio h (PyFloat.min r1 r2) = Ok rh).
  { unfold int_of_ratio. rewrite Em, Eq'. exact Erh. }
  exists rw, rh, r1, r2.
  split; [exact E1|]. split; [exact E2|].
  split; [exact F1|]. split; [exact F2|].
  split; [lia|].
  split; [exact Iw|]. split; [exact Ih|].
  split.
  { unfold _calculate_size. cbn [given_number].
    rewrite !given_int_nonzero by lia.
    rewrite E1, E2. cbn [bind]. rewrite Iw, Ih. reflexivity. }
  repeat split; lia.
Qed.

Lemma calculate_size_fits_box_witness :
  exists (rw rh : Z) (ratio_w ratio_h : PyFloat.float),
    PyFloat.int_truediv 800 1000 = Ok ratio_w
    /\ PyFloat.int_truediv 800 500 = Ok ratio_h
    /\ (2 ^ 53 * Z.abs (ulps ratio_w * 1000 - 800 * 2 ^ 1074)
        <= 800 * 2 ^ 1074)%Z
    /\ (2 ^ 53 * Z.abs (ulps ratio_h * 500 - 800 * 2 ^ 1074)
        <= 800 * 2 ^ 1074)%Z
    /\ ulps (PyFloat.min ratio_w ratio_h)
       = Z.min (ulps ratio_w) (ulps ratio_h)
    /\ int_of_ratio 1000 (PyFloat.min ratio_w ratio_h) = Ok rw
    /\ int_of_ratio 500 (PyFloat.min ratio_w ratio_h) = Ok rh
    /\ _calculate_size (1000, 500) (Some 800%Z) (Some 800%Z) None true
       = Ok (rw, rh)
    /\ (0 <= rw <= 800)%Z /\ (0 <= rh <= 800)%Z
    /\ (800 - 1 <= rw \/ 800 - 1 <= rh)%Z
    /\ (Z.abs (rw * 500 - rh * 1000) < 1000 + 500)%Z.
Proof.
  apply (calculate_size_fits_box 1000 500 800 800);
    split; reflexivity.
Defined.

(** C3 as stated fails for a box so large that the doubles are no longer
    exact: fitting the size (3, 3) into the box of side 2^53 - 1 gives the
    side 2^53, one more than the box. *)
Lemma fits_every_box_counterexample :
  _calculate_size (3, 3) (Some 9007199254740991%Z) (Some 9007199254740991%Z)
    None true
  = Ok (9007199254740992, 9007199254740992)%Z
  /\ (9007199254740991 < 9007199254740992)%Z.
Proof. split; reflexivity. Qed.

Lemma supplied_int_given (a : option Z) (n : Z) :
  supplied_int a n -> given_int a = Some n.
Proof. intros [-> Hn]. now apply given_int_nonzero. Qed.

Lemma absent_int_given (a : option Z) : absent_int a -> given_int a = None.
Proof. intros [->| ->]; reflexivity. Qed.

Lemma supplied_number_given (a : option number) (s : number) :
  supplied_number a s -> given_number a = Some s.
Proof.
  intros [-> [Hi Hf]]. apply given_number_truthy.
  destruct s as [k|x]; cbn [number_truthy].
  - destruct (Z.eqb_spec k 0) as [->|]; [now contradiction Hi | reflexivity].
  - destruct x as [b|b| |b m e]; try reflexivity.
    now contradiction (Hf b).
Qed.

Lemma absent_number_given (a : option number) :
  absent_number a -> given_number a = None.
Proof. intros [->|[->|[b ->]]]; reflexivity. Qed.

Lemma supplied_or_absent_int (a : option Z) :
  (exists n, supplied_int a n) \/ absent_int a.
Proof.
  destruct a as [n|]; [|right; now left].
  destruct (Z.eq_dec n 0) as [->|Hn]; [right; now right|].
  left. exists n. now split.
Qed.

Lemma supplied_or_absent_number (a : option number) :
  (exists s, supplied_number a s) \/ absent_number a.
Proof.
  destruct a as [[k|x]|]; [| |right; now left].
  - destruct (Z.eq_dec k 0) as [->|Hk]; [right; right; now left|].
    left. exists (PyInt k). repeat split; congruence.
  - destruct x as [b|b| |b m e];
      try (left; eexists; repeat split; congruence).
    right. right. right. now exists b.
Qed.

(** C4: the calculator applies exactly the first supplied policy in the
    order scale, width and height, width, height, computed from the policy's
    own parameters only, whatever the parameters of lower priority are; with
    no sizing parameter supplied the original size is returned as it is.  A
    parameter is supplied when it is given and not zero, and every argument
    is either supplied or absent and never both, so the five cases cover
    every call and exclude each other. *)
Theorem calculate_size_priority (sz : size) width height scale maintain_aspect :
  (forall s, supplied_number scale s ->
     _calculate_size sz width height scale maintain_aspect
     = apply_policy (ByScale s) sz maintain_aspect)
  /\ (forall W H,
        absent_number scale -> supplied_int width W -> supplied_int height H ->
        _calculate_size sz width height scale maintain_aspect
        = apply_policy (ByBox W H) sz maintain_aspect)
  /\ (forall W,
        absent_number scale -> supplied_int width W -> absent_int height ->
        _calculate_size sz width height scale maintain_aspect
        = apply_policy (ByWidth W) sz maintain_aspect)
  /\ (forall H,
        absent_number scale -> absent_int width -> supplied_int height H ->
        _calculate_size sz width height scale maintain_aspect
        = apply_policy (ByHeight H) sz maintain_aspect)
  /\ (absent_number scale -> absent_int width -> absent_int height ->
      _calculate_size sz width height scale maintain_aspect = Ok sz)
  /\ ((exists s, supplied_number scale s) \/ absent_number scale)
  /\ ((exists W, supplied_int width W) \/ absent_int width)
  /\ ((exists H, supplied_int height H) \/ absent_int height)
  /\ (forall s, supplied_number scale s -> ~ absent_number scale)
  /\ (forall W, supplied_int width W -> ~ absent_int width)
  /\ (forall H, supplied_int height H -> ~ absent_int height).
Proof.
  destruct sz as [orig_w orig_h].
  repeat match goal with |- _ /\ _ => split end.
  - intros s Hs. unfold _calculate_size.
    now rewrite (supplied_number_given scale s Hs).
  - intros W H Hs HW HH. unfold _calculate_size.
    now rewrite (absent_number_given scale Hs),
      (supplied_int_given width W HW), (supplied_int_given height H HH).
  - intros W Hs HW HH. unfold _calculate_size.
    now rewrite (absent_number_given scale Hs),
      (supplied_int_given width W HW), (absent_int_given height HH).
  - intros H Hs HW HH. unfold _calculate_size.
    now rewrite (absent_number_given scale Hs),
      (absent_int_given width HW), (supplied_int_given height H HH).
  - intros Hs HW HH. unfold _calculate_size.
    now rewrite (absent_number_given scale Hs),
      (absent_int_given width HW), (absent_int_given height HH).
  - apply supplied_or_absent_number.
  - apply supplied_or_absent_int.
  - apply supplied_or_absent_int.
  - intros s [-> [Hi Hf]] [C|[C|[b C]]]; inversion C; subst;
      [now apply Hi | now apply (Hf b)].
  - intros W [-> HW] [C|C]; inversion C; subst. now apply HW.
  - intros H [-> HH] [C|C]; inversion C; subst. now apply HH.
Qed.

Lemma calculate_size_priority_witness :
  _calculate_size (1000, 500) (Some 800) (Some 800) (Some (PyFlt flt_0_5)) true
  = Ok (500, 250)
  /\ _calculate_size (1000, 500) (Some 800) (Some 300) (Some (PyInt 0)) true
     = Ok (600, 300)
  /\ _calculate_size (1000, 500) (Some 800) (Some 0) None true
     = Ok (800, 400)
  /\ _calculate_size (1000, 500) (Some 0) (Some 250) None true
     = Ok (500, 250)
  /\ _calculate_size (1000, 500) (Some 0) None
       (Some (PyFlt (S754_zero true))) true
     = Ok (1000, 500).
Proof.
  repeat match goal with |- _ /\ _ => split end.
  - apply (proj1 (calculate_size_priority (1000, 500) (Some 800) (Some 800)
                    (Some (PyFlt flt_0_5)) true) (PyFlt flt_0_5)).
    repeat split; intros; discriminate.
  - apply (proj1 (proj2 (calculate_size_priority (1000, 500) (Some 800)
                           (Some 300) (Some (PyInt 0)) true)) 800 300).
    + right. left. reflexivity.
    + split; [reflexivity | discriminate].
    + split; [reflexivity | discriminate].
  - apply (proj1 (proj2 (proj2 (calculate_size_priority (1000, 500)
                                  (Some 800) (Some 0) None true))) 800).
    + left. reflexivity.
    + split; [reflexivity | discriminate].
    + right. reflexivity.
  - apply (proj1 (proj2 (proj2 (proj2 (calculate_size_priority (1000, 500)
                                         (Some 0) (Some 250) None true))))
             250).
    + left. reflexivity.
    + right. reflexivity.
    + split; [reflexivity | discriminate].
  - apply (proj1 (proj2 (proj2 (proj2 (proj2
             (calculate_size_priority (1000, 500) (Some 0) None
                (Some (PyFlt (S754_zero true))) true)))))).
    + right. right. exists true. reflexivity.
    + right. reflexivity.
    + left. reflexivity.
Defined.

(** C5: without a scale and without the aspect flag, a requested box of
    positive width and height is returned exactly, whatever the original
    size. *)
Theorem calculate_size_exact_box w h W H :
  (0 < W)%Z -> (0 < H)%Z ->
  _calculate_size (w, h) (Some W) (Some H) None false = Ok (W, H).
Proof.
  intros HW HH. unfold _calculate_size. simpl given_number.
  rewrite !given_int_nonzero by lia. reflexivity.
Qed.

Lemma calculate_size_exact_box_witness :
  _calculate_size (1000, 500) (Some 800%Z) (Some 800%Z) None false
  = Ok (800, 800)%Z.
Proof.
  apply (calculate_size_exact_box 1000 500 800 800); reflexivity.
Defined.

(** C10: a sizing parameter equal to zero counts as absent.  A zero scale
    (the integer, or either float zero), a zero width and a zero height each
    give the result of the call without that parameter, and with all three
    zero the original size is returned. *)
Theorem calculate_size_zero_is_absent (sz : size) width height scale
    maintain_aspect (negative : bool) :
  _calculate_size sz width height (Some (PyInt 0)) maintain_aspect
  = _calculate_size sz width height None maintain_aspect
  /\ _calculate_size sz width height (Some (PyFlt (S754_zero negative)))
       maintain_aspect
     = _calculate_size sz width height None maintain_aspect
  /\ _calculate_size sz (Some 0%Z) height scale maintain_aspect
     = _calculate_size sz None height scale maintain_aspect
  /\ _calculate_size sz width (Some 0%Z) scale maintain_aspect
     = _calculate_size sz width None scale maintain_aspect
  /\ _calculate_size sz (Some 0%Z) (Some 0%Z) (Some (PyInt 0)) maintain_aspect
     = Ok sz
  /\ _calculate_size sz (Some 0%Z) (Some 0%Z)
       (Some (PyFlt (S754_zero negative))) maintain_aspect
     = Ok sz.
Proof.
  destruct sz as [orig_w orig_h].
  repeat split; reflexivity.
Qed.

(** ** Further properties of the calculator *)

(** X1: With only the width given the result has exactly that width, and its
    height is the original height scaled by [W / w], truncated, up to the
    relative error [2^-53] of the quotient and of the product. *)
Theorem width_only_keeps_proportion w h W maintain_aspect :
  (0 < w < 2 ^ 53)%Z -> (0 < h < 2 ^ 53)%Z -> (0 < W < 2 ^ 53)%Z ->
  exists rh : Z,
    _calculate_size (w, h) (Some W) None None maintain_aspect = Ok (W, rh)
    /\ (0 <= rh)%Z
    /\ (2 ^ 106 * (rh * w) <= (2 ^ 53 + 1) ^ 2 * (h * W))%Z
    /\ ((2 ^ 53 - 1) ^ 2 * (h * W) < 2 ^ 106 * ((rh + 1) * w))%Z.
Proof.
  intros Hw Hh HW.
  destruct (int_truediv_normal W w HW Hw) as [m [e [E [N [X F1]]]]].
  destruct (int_mul_normal h m e Hh N ltac:(lia)) as [mp [ep [Ep [_ [Xp F4]]]]].
  destruct (to_int_floor mp ep ltac:(lia)) as [rh [Er [Hr F6]]].
  pose proof (pow2_pos 1074 ltac:(lia)) as HS.
  destruct (ratio_arithmetic _ _ _ rh h W w HS ltac:(lia) ltac:(lia)
              ltac:(lia) F1 F4 F6) as [G1 G2].
  exists rh. split; [|split; [exact Hr | split; assumption]].
  unfold _calculate_size. cbn [given_number].
  rewrite given_int_nonzero by lia. cbn [given_int].
  rewrite E. cbn [bind]. unfold int_of_ratio. rewrite Ep. cbn [bind].
  now rewrite Er.
Qed.

Lemma width_only_keeps_proportion_witness :
  exists rh : Z,
    _calculate_size (1000, 500) (Some 800%Z) None None true = Ok (800%Z, rh)
    /\ (0 <= rh)%Z
    /\ (2 ^ 106 * (rh * 1000) <= (2 ^ 53 + 1) ^ 2 * (500 * 800))%Z
    /\ ((2 ^ 53 - 1) ^ 2 * (500 * 800) < 2 ^ 106 * ((rh + 1) * 1000))%Z.
Proof.
  apply (width_only_keeps_proportion 1000 500 800 true); split; reflexivity.
Defined.

(** X2: With only the height given the result has exactly that height, and its
    width is the original width scaled by [H / h], in the same way. *)
Theorem height_only_keeps_proportion w h H maintain_aspect :
  (0 < w < 2 ^ 53)%Z -> (0 < h < 2 ^ 53)%Z -> (0 < H < 2 ^ 53)%Z ->
  exists rw : Z,
    _calculate_size (w, h) None (Some H) None maintain_aspect = Ok (rw, H)
    /\ (0 <= rw)%Z
    /\ (2 ^ 106 * (rw * h) <= (2 ^ 53 + 1) ^ 2 * (w * H))%Z
    /\ ((2 ^ 53 - 1) ^ 2 * (w * H) < 2 ^ 106 * ((rw + 1) * h))%Z.
Proof.
  intros Hw Hh HH.
  destruct (int_truediv_normal H h HH Hh) as [m [e [E [N [X F1]]]]].
  destruct (int_mul_normal w m e Hw N ltac:(lia)) as [mp [ep [Ep [_ [Xp F4]]]]].
  destruct (to_int_floor mp ep ltac:(lia)) as [rw [Er [Hr F6]]].
  pose proof (pow2_pos 1074 ltac:(lia)) as HS.
  destruct (ratio_arithmetic _ _ _ rw w H h HS ltac:(lia) ltac:(lia)
              ltac:(lia) F1 F4 F6) as [G1 G2].
  exists rw. split; [|split; [exact Hr | split; assumption]].
  unfold _calculate_size. cbn [given_number].
  rewrite given_int_nonzero by lia. cbn [given_int].
  rewrite E. cbn [bind]. unfold int_of_ratio. rewrite Ep. cbn [bind].
  now rewrite Er.
Qed.

Lemma height_only_keeps_proportion_witness :
  exists rw : Z,
    _calculate_size (1000, 500) None (Some 250%Z) None false = Ok (rw, 250%Z)
    /\ (0 <= rw)%Z
    /\ (2 ^ 106 * (rw * 500) <= (2 ^ 53 + 1) ^ 2 * (1000 * 250))%Z
    /\ ((2 ^ 53 - 1) ^ 2 * (1000 * 250) < 2 ^ 106 * ((rw + 1) * 500))%Z.
Proof.
  apply (height_only_keeps_proportion 1000 500 250 false); split; reflexivity.
Defined.

Lemma int_of_ratio_multiple (n K b : Z) (m : positive) (e : Z) :
  (0 < n)%Z -> (0 < K)%Z -> (n * K < 2 ^ 53)%Z ->
  (2 ^ 52 <= Zpos m < 2 ^ 53)%Z -> (- 105 <= e <= 0)%Z ->
  Zpos m = (K * 2 ^ (- e))%Z ->
  ulps (S754_finite false m e) = (K * 2 ^ 1074)%Z ->
  int_of_ratio n (S754_finite false m e) = Ok (K * n)%Z.
Proof.
  intros Hn HK HnK Hm He Em Eu.
  assert (Hn' : (0 < n < 2 ^ 53)%Z) by nia.
  rewrite (int_of_ratio_exact n K (- e) m e Hn' Hm ltac:(lia) ltac:(lia)
             Em HnK).
  rewrite Eu. f_equal.
  replace (n * (K * 2 ^ 1074))%Z with (K * n * 2 ^ 1074)%Z by ring.
  apply Z.div_mul. pose proof (pow2_pos 1074 ltac:(lia)). lia.
Qed.

(** X3: Scaling by a whole factor is exact: when the requested width is [k]
    times the original width, the result is [k] times the original size; in
    particular asking for the width the image already has returns its
    size. *)
Theorem width_multiple_is_exact w h k maintain_aspect :
  (0 < w)%Z -> (0 < h)%Z -> (0 < k)%Z ->
  (k * w < 2 ^ 53)%Z -> (k * h < 2 ^ 53)%Z ->
  _calculate_size (w, h) (Some (k * w)%Z) None None maintain_aspect
  = Ok (k * w, k * h)%Z.
Proof.
  intros Hw Hh Hk Bw Bh.
  destruct (int_truediv_multiple k w Hw Hk Bw) as [m [e [E [N [X [Em Eu]]]]]].
  unfold _calculate_size. cbn [given_number].
  rewrite given_int_nonzero by nia. cbn [given_int].
  rewrite E. cbn [bind].
  rewrite (int_of_ratio_multiple h k w m e); try assumption; try lia.
  reflexivity.
Qed.

Lemma width_multiple_is_exact_witness :
  _calculate_size (1000, 500) (Some (3 * 1000)%Z) None None true
  = Ok (3 * 1000, 3 * 500)%Z
  /\ _calculate_size (1000, 500) (Some (1 * 1000)%Z) None None true
     = Ok (1 * 1000, 1 * 500)%Z.
Proof.
  split.
  - apply (width_multiple_is_exact 1000 500 3 true); reflexivity.
  - apply (width_multiple_is_exact 1000 500 1 true); reflexivity.
Defined.

(** X4: The same for the height. *)
Theorem height_multiple_is_exact w h k maintain_aspect :
  (0 < w)%Z -> (0 < h)%Z -> (0 < k)%Z ->
  (k * w < 2 ^ 53)%Z -> (k * h < 2 ^ 53)%Z ->
  _calculate_size (w, h) None (Some (k * h)%Z) None maintain_aspect
  = Ok (k * w, k * h)%Z.
Proof.
  intros Hw Hh Hk Bw Bh.
  destruct (int_truediv_multiple k h Hh Hk Bh) as [m [e [E [N [X [Em Eu]]]]]].
  unfold _calculate_size. cbn [given_number].
  rewrite given_int_nonzero by nia. cbn [given_int].
  rewrite E. cbn [bind].
  rewrite (int_of_ratio_multiple w k h m e); try assumption; try lia.
  reflexivity.
Qed.

Lemma height_multiple_is_exact_witness :
  _calculate_size (1000, 500) None (Some (2 * 500)%Z) None false
  = Ok (2 * 1000, 2 * 500)%Z.
Proof.
  apply (height_multiple_is_exact 1000 500 2 false); reflexivity.
Defined.

(** X5: A box whose sides are whole multiples [k1] and [k2] of the original
    sides, with the aspect kept: the result is the original size times the
    smaller factor, exactly; a box equal to the original size returns it. *)
Theorem box_multiple_is_exact w h k1 k2 :
  (0 < w)%Z -> (0 < h)%Z -> (0 < k1)%Z -> (0 < k2)%Z ->
  (k1 * w < 2 ^ 53)%Z -> (k2 * h < 2 ^ 53)%Z ->
  (Z.min k1 k2 * w < 2 ^ 53)%Z -> (Z.min k1 k2 * h < 2 ^ 53)%Z ->
  _calculate_size (w, h) (Some (k1 * w)%Z) (Some (k2 * h)%Z) None true
  = Ok (Z.min k1 k2 * w, Z.min k1 k2 * h)%Z.
Proof.
  intros Hw Hh Hk1 Hk2 B1 B2 Bw Bh.
  destruct (int_truediv_multiple k1 w Hw Hk1 B1)
    as [m1 [e1 [E1 [N1 [X1 [Em1 Eu1]]]]]].
  destruct (int_truediv_multiple k2 h Hh Hk2 B2)
    as [m2 [e2 [E2 [N2 [X2 [Em2 Eu2]]]]]].
  unfold _calculate_size. cbn [given_number].
  rewrite !given_int_nonzero by nia.
  rewrite E1, E2. cbn [bind].
  pose proof (pow2_pos 1074 ltac:(lia)) as HS.
  destruct (min_ulps m1 m2 e1 e2 N1 N2 ltac:(lia) ltac:(lia))
    as [[Em Hle]|[Em Hlt]]; rewrite Em.
  - rewrite Eu1, Eu2 in Hle.
    assert (Hk : (k1 <= k2)%Z) by nia.
    rewrite (Z.min_l k1 k2 Hk) in *.
    rewrite (int_of_ratio_multiple w k1 w m1 e1); try assumption; try lia.
    rewrite (int_of_ratio_multiple h k1 h m1 e1); try assumption; try lia.
    reflexivity.
  - rewrite Eu1, Eu2 in Hlt.
    assert (Hk : (k2 <= k1)%Z) by nia.
    rewrite (Z.min_r k1 k2 Hk) in *.
    rewrite (int_of_ratio_multiple w k2 h m2 e2); try assumption; try lia.
    rewrite (int_of_ratio_multiple h k2 h m2 e2); try assumption; try lia.
    reflexivity.
Qed.

Lemma box_multiple_is_exact_witness :
  _calculate_size (1000, 500) (Some (1 * 1000)%Z) (Some (1 * 500)%Z) None true
  = Ok (Z.min 1 1 * 1000, Z.min 1 1 * 500)%Z
  /\ _calculate_size (1000, 500) (Some (2 * 1000)%Z) (Some (3 * 500)%Z)
       None true
     = Ok (Z.min 2 3 * 1000, Z.min 2 3 * 500)%Z.
Proof.
  split.
  - apply (box_multiple_is_exact 1000 500 1 1); reflexivity.
  - apply (box_multiple_is_exact 1000 500 2 3); reflexivity.
Defined.

(** X6: A scale whose mantissa is [K * 2^i] with [w * K] and [h * K] below
    [2^53] (0.5, 0.75, 1.5 and the like on ordinary sizes): the double
    products are exact, and the result is the exact product truncated. *)
Theorem dyadic_scale_is_exact w h (m : positive) (e K i : Z)
    width height maintain_aspect :
  (0 < w)%Z -> (0 < h)%Z ->
  (2 ^ 52 <= Zpos m < 2 ^ 53)%Z -> (- 1074 <= e <= 917)%Z ->
  (0 <= i)%Z -> Zpos m = (K * 2 ^ i)%Z ->
  (w * K < 2 ^ 53)%Z -> (h * K < 2 ^ 53)%Z ->
  _calculate_size (w, h) width height (Some (PyFlt (S754_finite false m e)))
    maintain_aspect
  = Ok (w * ulps (S754_finite false m e) / 2 ^ 1074,
        h * ulps (S754_finite false m e) / 2 ^ 1074)%Z.
Proof.
  intros Hw Hh Hm He Hi EK Bw Bh.
  assert (HK : (0 < K)%Z).
  { pose proof (pow2_pos i Hi). nia. }
  unfold _calculate_size. cbn [given_number number_truthy PyFloat.truthy].
  change (int_of_scaled w (PyFlt (S754_finite false m e)))
    with (int_of_ratio w (S754_finite false m e)).
  change (int_of_scaled h (PyFlt (S754_finite false m e)))
    with (int_of_ratio h (S754_finite false m e)).
  rewrite (int_of_ratio_exact w K i m e); try assumption; try nia.
  rewrite (int_of_ratio_exact h K i m e); try assumption; try nia.
  reflexivity.
Qed.

Lemma dyadic_scale_is_exact_witness :
  _calculate_size (1001, 500) None None (Some (PyFlt flt_0_75)) true
  = Ok (1001 * ulps flt_0_75 / 2 ^ 1074, 500 * ulps flt_0_75 / 2 ^ 1074)%Z
  /\ (1001 * ulps flt_0_75 / 2 ^ 1074 = 750)%Z
  /\ (500 * ulps flt_0_75 / 2 ^ 1074 = 375)%Z.
Proof.
  split; [|split; reflexivity].
  apply (dyadic_scale_is_exact 1001 500 6755399441055744 (-53) 3 51
           None None true);
    first [ reflexivity
          | intros C; discriminate C
          | split; [intros C; discriminate C | reflexivity]
          | split; intros C; discriminate C ].
Defined.

(** X7: An original dimension equal to zero: the calculator raises
    [ZeroDivisionError] as soon as it divides by it (width given and the
    original width zero, height given alone and the original height zero),
    and returns the box untouched when the aspect is not kept. *)
Theorem zero_original_dimension w h W H maintain_aspect :
  W <> 0%Z -> H <> 0%Z ->
  _calculate_size (0%Z, h) (Some W) None None maintain_aspect
  = Raise ZeroDivisionError
  /\ _calculate_size (0%Z, h) (Some W) (Some H) None true
     = Raise ZeroDivisionError
  /\ _calculate_size (w, 0%Z) None (Some H) None maintain_aspect
     = Raise ZeroDivisionError
  /\ _calculate_size (0%Z, 0%Z) (Some W) (Some H) None false = Ok (W, H).
Proof.
  intros HW HH. unfold _calculate_size. cbn [given_number].
  rewrite !given_int_nonzero by assumption. cbn [given_int].
  repeat split.
Qed.

Lemma zero_original_dimension_witness :
  _calculate_size (0, 500)%Z (Some 800%Z) None None true
  = Raise ZeroDivisionError.
Proof.
  apply (zero_original_dimension 0 500 800 800 true); discriminate.
Defined.

(** X8: A scale that is not a finite number: NaN is true in the [if], and
    [int] raises [ValueError] on the NaN product; an infinite scale gives an
    infinite product and [OverflowError]. *)
Theorem non_finite_scale_raises w h width height maintain_aspect
    (negative : bool) :
  (0 < w < 2 ^ 53)%Z ->
  _calculate_size (w, h) width height (Some (PyFlt S754_nan)) maintain_aspect
  = Raise ValueError
  /\ _calculate_size (w, h) width height
       (Some (PyFlt (S754_infinity negative))) maintain_aspect
     = Raise OverflowError.
Proof.
  intros Hw.
  destruct (of_int_exact w Hw) as [mx [ex [Eof _]]].
  unfold _calculate_size. cbn [given_number number_truthy PyFloat.truthy].
  unfold int_of_scaled, PyFloat.int_mul. rewrite Eof. cbn [bind SFmul].
  split; reflexivity.
Qed.

Lemma non_finite_scale_raises_witness :
  _calculate_size (1000, 500)%Z None None (Some (PyFlt S754_nan)) true
  = Raise ValueError.
Proof.
  apply (non_finite_scale_raises 1000 500 None None true false).
  split; reflexivity.
Defined.

(** X9: The aspect flag is read in one place only: it changes nothing when a
    scale is supplied, or when the width or the height is not. *)
Theorem aspect_flag_only_for_box (sz : size) width height scale :
  given_number scale <> None \/ given_int width = None
  \/ given_int height = None ->
  _calculate_size sz width height scale true
  = _calculate_size sz width height scale false.
Proof.
  intros H. destruct sz as [orig_w orig_h]. unfold _calculate_size.
  destruct (given_number scale) as [s|]; [reflexivity|].
  destruct H as [H|[H|H]]; [contradiction | rewrite H | rewrite H].
  - destruct (given_int height); reflexivity.
  - destruct (given_int width); reflexivity.
Qed.

Lemma aspect_flag_only_for_box_witness :
  _calculate_size (1000, 500)%Z (Some 800%Z) (Some 0%Z) None true
  = _calculate_size (1000, 500)%Z (Some 800%Z) (Some 0%Z) None false.
Proof.
  apply (aspect_flag_only_for_box (1000, 500)%Z (Some 800%Z) (Some 0%Z) None).
  right. right. reflexivity.
Defined.

(** ** The exceptions of the calculator *)

Lemma of_int_raises n e :
  PyFloat.of_int n = Raise e -> arithmetic_error e = true.
Proof.
  unfold PyFloat.of_int.
  destruct (binary_normalize _ _ _ _ _); intros H; inversion H; reflexivity.
Qed.

Lemma int_truediv_raises a b e :
  PyFloat.int_truediv a b = Raise e -> arithmetic_error e = true.
Proof.
  unfold PyFloat.int_truediv.
  destruct b; [intros H; inversion H; reflexivity | |];
    (destruct a; [discriminate | |]);
    destruct (SFdiv _ _ _ _); intros H; inversion H; reflexivity.
Qed.

Lemma int_mul_raises n x e :
  PyFloat.int_mul n x = Raise e -> arithmetic_error e = true.
Proof.
  unfold PyFloat.int_mul, bind.
  destruct (PyFloat.of_int n) eqn:E; [discriminate|].
  intros H; inversion H; subst. exact (of_int_raises n e E).
Qed.

Lemma to_int_raises x e :
  PyFloat.to_int x = Raise e -> arithmetic_error e = true.
Proof.
  destruct x; cbn [PyFloat.to_int]; intros H; inversion H; reflexivity.
Qed.

Lemma int_of_ratio_raises n x e :
  int_of_ratio n x = Raise e -> arithmetic_error e = true.
Proof.
  unfold int_of_ratio, bind.
  destruct (PyFloat.int_mul n x) eqn:E.
  - apply to_int_raises.
  - intros H; inversion H; subst. exact (int_mul_raises n x e E).
Qed.

Lemma int_of_scaled_raises n s e :
  int_of_scaled n s = Raise e -> arithmetic_error e = true.
Proof.
  destruct s as [k|x]; cbn [int_of_scaled]; [discriminate|].
  apply (int_of_ratio_raises n x e).
Qed.

(** Whatever its arguments, the calculator raises nothing but a
    [ZeroDivisionError], an [OverflowError] or a [ValueError]. *)
Lemma calculate_size_raises sz width height scale maintain_aspect e :
  _calculate_size sz width height scale maintain_aspect = Raise e ->
  arithmetic_error e = true.
Proof.
  destruct sz as [w h]. unfold _calculate_size, bind.
  destruct (given_number scale) as [s|];
    [|destruct (given_int width) as [W|], (given_int height) as [H|];
      [destruct maintain_aspect| | |]];
    repeat match goal with
      | |- context [match ?x with Ok _ => _ | Raise _ => _ end] =>
          let E := fresh "E" in destruct x eqn:E
      end;
    intros Hr; inversion Hr; subst;
    eauto using int_of_scaled_raises, int_of_ratio_raises,
      int_truediv_raises.
Qed.

End CalculateSize.

(** * Properties of file names *)

Section FileNames.

Lemma split_on_no_separator (c : ascii) (s : string) :
  contains_char c s = false -> split_on c s = [s].
Proof.
  induction s as [|d r IH]; simpl; [reflexivity|].
  intros H. apply orb_false_iff in H as [Hd Hr].
  rewrite Hd, (IH Hr). reflexivity.
Qed.

Lemma rsplit_dot_no_dot (s : string) :
  contains_char "." s = false -> rsplit_dot s = None.
Proof.
  induction s as [|d r IH]; simpl; [reflexivity|].
  intros H. apply orb_false_iff in H as [Hd Hr].
  now rewrite (IH Hr), Hd.
Qed.

Lemma rsplit_dot_last (a b : string) :
  contains_char "." b = false ->
  rsplit_dot (a ++ "." ++ b) = Some (a, b).
Proof.
  intros Hb. induction a as [|d r IH]; simpl.
  - now rewrite (rsplit_dot_no_dot b Hb).
  - simpl in IH. now rewrite IH.
Qed.

Lemma contains_char_append (c : ascii) (a b : string) :
  contains_char c (a ++ b) = contains_char c a || contains_char c b.
Proof.
  induction a as [|d r IH]; simpl; [reflexivity|].
  now rewrite IH, orb_assoc.
Qed.

Lemma append_empty (a b : string) : a ++ b = "" -> a = "" /\ b = "".
Proof. destruct a; simpl; [auto | discriminate]. Qed.

Lemma stem_of_name_extension (a b : string) :
  a <> "" -> b <> "" -> contains_char "." b = false ->
  stem_of_name (a ++ "." ++ b) = a.
Proof.
  intros Ha Hb Hdot. unfold stem_of_name.
  rewrite (rsplit_dot_last a b Hdot).
  apply String.eqb_neq in Ha, Hb. now rewrite Ha, Hb.
Qed.

Lemma path_name_plain (name : string) :
  contains_char "/" name = false -> name <> "" -> name <> "." ->
  path_name (parse_path name) = name.
Proof.
  intros Hs He Hd. unfold path_name, parse_path; simpl.
  rewrite (split_on_no_separator "/" name Hs). simpl.
  unfold is_component.
  apply String.eqb_neq in He, Hd. now rewrite He, Hd.
Qed.

Lemma given_string_nonempty (x : string) :
  x <> "" -> given_string (Some x) = Some x.
Proof. intros H. simpl. apply String.eqb_neq in H. now rewrite H. Qed.

(** ** Further properties of file names *)

Lemma map_string_append (f : ascii -> ascii) (a b : string) :
  map_string f (a ++ b) = map_string f a ++ map_string f b.
Proof. induction a as [|c r IH]; simpl; [reflexivity | now rewrite IH]. Qed.

Lemma lower_append (a b : string) : lower (a ++ b) = lower a ++ lower b.
Proof. apply map_string_append. Qed.

Lemma endswith_append (a b : string) : endswith (a ++ b) b = true.
Proof.
  induction a as [|c r IH]; simpl append.
  - destruct b; cbn [endswith]; now rewrite String.eqb_refl.
  - cbn [endswith]. rewrite IH. apply orb_true_r.
Qed.


Lemma supported_formats_lower (ext : string) :
  In ext SUPPORTED_FORMATS -> lower ext = ext /\ ext <> "".
Proof.
  unfold SUPPORTED_FORMATS. simpl.
  intros H; repeat (destruct H as [<-|H]; [split; [reflexivity|discriminate]|]).
  contradiction.
Qed.

(** A name followed by an allowed extension written in any mixture of case
    passes the test [process_from_url] makes. *)
Lemma has_supported_extension_any_case (base s ext : string) :
  In ext SUPPORTED_FORMATS -> lower s = ext ->
  has_supported_extension (base ++ s) = true.
Proof.
  intros Hin Hs. unfold has_supported_extension.
  apply existsb_exists. exists ext. split; [exact Hin|].
  rewrite lower_append, Hs. apply endswith_append.
Qed.

(** X10: The name derived from a URL is never empty and always ends with an
    allowed extension. *)
Theorem derived_filename_has_extension (url : string) :
  has_supported_extension (derived_filename url) = true
  /\ derived_filename url <> "".
Proof.
  unfold derived_filename.
  set (name := if path_name (parse_path url) =? ""
               then "downloaded_image" else path_name (parse_path url)).
  assert (Hne : name <> "").
  { subst name. destruct (String.eqb_spec (path_name (parse_path url)) "");
      [discriminate | assumption]. }
  destruct (has_supported_extension name) eqn:Hs.
  - split; [exact Hs | exact Hne].
  - split.
    + apply (has_supported_extension_any_case name ".jpg" ".jpg");
        [now left | reflexivity].
    + intros C. apply append_empty in C as [C _]. contradiction.
Qed.

(** X11: A URL whose last segment already ends with an allowed extension, in any
    mixture of case, keeps that segment as the filename. *)
Theorem url_extension_any_case (url base s ext : string) :
  path_name (parse_path url) = base ++ s ->
  In ext SUPPORTED_FORMATS -> lower s = ext ->
  derived_filename url = base ++ s.
Proof.
  intros Hname Hin Hs. unfold derived_filename. rewrite Hname.
  assert (Hne : base ++ s <> "").
  { intros C. apply append_empty in C as [_ C]. subst s.
    destruct (supported_formats_lower ext Hin) as [_ He].
    apply He. now rewrite <- Hs. }
  apply String.eqb_neq in Hne. rewrite Hne.
  now rewrite (has_supported_extension_any_case base s ext Hin Hs).
Qed.

Lemma url_extension_any_case_witness :
  derived_filename "https://example.com/shots/Photo.JpEg" = "Photo" ++ ".JpEg".
Proof.
  apply (url_extension_any_case "https://example.com/shots/Photo.JpEg"
           "Photo" ".JpEg" ".jpeg"); [reflexivity | | reflexivity].
  right. left. reflexivity.
Defined.

(** *** Components never hold a separator *)












(** *** The generic name *)

Lemma last_In {A : Type} (l : list A) (d : A) : l <> [] -> In (last l d) l.
Proof.
  induction l as [|x r IH]; [congruence|]. intros _.
  destruct r as [|y r']; [now left|].
  right. apply IH. discriminate.
Qed.

Lemma is_component_false (x : string) :
  is_component x = false <-> x = "" \/ x = ".".
Proof.
  unfold is_component.
  destruct (String.eqb_spec x "") as [->|H1]; [simpl; intuition|].
  destruct (String.eqb_spec x ".") as [->|H2]; [simpl; intuition|].
  simpl. split; [discriminate | intros [E|E]; contradiction].
Qed.

Lemma filter_nil {A : Type} (f : A -> bool) (l : list A) :
  filter f l = [] <-> forall x, In x l -> f x = false.
Proof.
  induction l as [|a r IH]; cbn [filter].
  - split; [intros _ x [] | reflexivity].
  - destruct (f a) eqn:E.
    + split; [discriminate|]. intros H.
      rewrite (H a (or_introl eq_refl)) in E. discriminate.
    + rewrite IH. split.
      * intros H x [<-|Hin]; [exact E | now apply H].
      * intros H x Hin. apply H. now right.
Qed.

Lemma path_name_empty (s : string) :
  path_name (parse_path s) = ""
  <-> forall x, In x (split_on "/" s) -> x = "" \/ x = ".".
Proof.
  unfold path_name, parse_path. cbn [parts].
  split.
  - intros H x Hin. apply is_component_false.
    destruct (filter is_component (split_on "/" s)) as [|y r] eqn:E.
    + exact (proj1 (filter_nil _ _) E x Hin).
    + exfalso.
      assert (Hl : In (last (y :: r) "") (filter is_component (split_on "/" s))).
      { rewrite E. apply last_In. discriminate. }
      apply filter_In in Hl as [_ Hc]. rewrite H in Hc. discriminate.
  - intros H.
    assert (E : filter is_component (split_on "/" s) = []).
    { apply filter_nil. intros x Hin. apply is_component_false. now apply H. }
    now rewrite E.
Qed.

(** X12: The generic name is used exactly for a URL without any path component,
    one made of separators and single dots only; every other URL gives its
    last component. *)
Theorem generic_name_only_without_components (url : string) :
  ((forall x, In x (split_on "/" url) -> x = "" \/ x = ".") ->
   derived_filename url = "downloaded_image.jpg")
  /\ (forall x, In x (split_on "/" url) -> x <> "" -> x <> "." ->
      path_name (parse_path url) <> ""
      /\ derived_filename url
         = if has_supported_extension (path_name (parse_path url))
           then path_name (parse_path url)
           else path_name (parse_path url) ++ ".jpg").
Proof.
  split.
  - intros H. apply path_name_empty in H.
    unfold derived_filename. rewrite H. reflexivity.
  - intros x Hin H1 H2.
    assert (Hne : path_name (parse_path url) <> "").
    { intros C. destruct (proj1 (path_name_empty url) C x Hin); contradiction. }
    split; [exact Hne|].
    unfold derived_filename. apply String.eqb_neq in Hne. now rewrite Hne.
Qed.

End FileNames.

(** * Properties of the selection of files *)

Section FileSelection.

Implicit Types (cs : bool) (l entries : list string) (x y name : string).

Lemma string_ltb_asym (a b : string) :
  String.ltb a b = true -> String.ltb b a = false.
Proof.
  unfold String.ltb. rewrite (String.compare_antisym a b).
  destruct (String.compare b a); simpl; congruence.
Qed.

Lemma insert_sorted_In cs x l y :
  In y (insert_sorted cs x l) <-> y = x \/ In y l.
Proof.
  induction l as [|z r IH]; simpl.
  - intuition.
  - destruct (String.ltb (normcase cs x) (normcase cs z)); simpl.
    + intuition.
    + rewrite IH. intuition.
Qed.

Lemma sorted_In cs l y : In y (sorted cs l) <-> In y l.
Proof.
  unfold sorted. rewrite (in_rev l y).
  induction (rev l) as [|z r IH]; simpl; [reflexivity|].
  rewrite insert_sorted_In, IH. intuition.
Qed.

Lemma insert_sorted_Sorted cs x l :
  Sorted.Sorted (name_le cs) l ->
  Sorted.Sorted (name_le cs) (insert_sorted cs x l).
Proof.
  induction l as [|z r IH]; simpl; intros Hs.
  - repeat constructor.
  - inversion Hs as [|? ? Hr Hhd]; subst.
    destruct (String.ltb (normcase cs x) (normcase cs z)) eqn:Hlt.
    + constructor; [exact Hs|]. constructor.
      unfold name_le. now apply string_ltb_asym.
    + constructor; [now apply IH|].
      destruct r as [|z' r']; simpl.
      * constructor. exact Hlt.
      * destruct (String.ltb (normcase cs x) (normcase cs z')).
        -- constructor. exact Hlt.
        -- constructor. now inversion Hhd.
Qed.

Lemma sorted_Sorted cs l : Sorted.Sorted (name_le cs) (sorted cs l).
Proof.
  unfold sorted. induction (rev l) as [|z r IH]; simpl.
  - constructor.
  - now apply insert_sorted_Sorted.
Qed.

(** X13: What the selection does return: the names come out in sorted order, and
    with case-sensitive matching a name is selected exactly when it is an
    entry that ends with an extension of the allow-list written all in lower
    case or all in upper case. *)
Lemma get_images_selects cs entries name :
  Sorted.Sorted (name_le cs) (_get_images cs entries)
  /\ (In name (_get_images true entries) <->
      In name entries
      /\ exists ext, In ext SUPPORTED_FORMATS
                     /\ (endswith name ext = true
                         \/ endswith name (upper ext) = true)).
Proof.
  split; [apply sorted_Sorted|].
  unfold _get_images. rewrite sorted_In, in_flat_map.
  split.
  - intros [ext [Hext Hin]]. apply in_app_or in Hin.
    unfold glob_star in Hin. rewrite !filter_In in Hin. simpl in Hin.
    destruct Hin as [[Hn He]|[Hn He]]; (split; [exact Hn|]);
      exists ext; auto.
  - intros [Hn [ext [Hext He]]]. exists ext. split; [exact Hext|].
    apply in_or_app. unfold glob_star. rewrite !filter_In. simpl.
    destruct He; auto.
Qed.

(** With case-sensitive matching no name is selected twice: two different
    patterns never match the same name. *)

Lemma endswith_refl (s : string) : endswith s s = true.
Proof. destruct s; cbn [endswith]; now rewrite String.eqb_refl. Qed.

Lemma endswith_tail (c : ascii) (s suffix : string) :
  endswith s suffix = true -> endswith (String c s) suffix = true.
Proof. intros H. cbn [endswith]. rewrite H. apply orb_true_r. Qed.

Lemma endswith_two (s a b : string) :
  endswith s a = true -> endswith s b = true ->
  endswith a b = true \/ endswith b a = true.
Proof.
  induction s as [|c r IH]; intros Ha Hb; cbn [endswith] in Ha, Hb.
  - rewrite orb_false_r in Ha, Hb.
    apply String.eqb_eq in Ha, Hb. subst. left. apply endswith_refl.
  - apply orb_true_iff in Ha, Hb.
    destruct Ha as [Ha|Ha], Hb as [Hb|Hb].
    + apply String.eqb_eq in Ha, Hb. subst. left. apply endswith_refl.
    + apply String.eqb_eq in Ha. subst a. left. now apply endswith_tail.
    + apply String.eqb_eq in Hb. subst b. right. now apply endswith_tail.
    + now apply IH.
Qed.

Lemma glob_patterns_exclusive (p q name : string) :
  In p glob_patterns -> In q glob_patterns -> p <> q ->
  endswith name p = true -> endswith name q = true -> False.
Proof.
  intros Hp Hq Hne Ep Eq'.
  assert (Hcheck : forallb (fun a =>
                      forallb (fun b => (a =? b) || negb (endswith a b))
                        glob_patterns) glob_patterns = true)
    by reflexivity.
  rewrite forallb_forall in Hcheck.
  pose proof (Hcheck p Hp) as Hpq. rewrite forallb_forall in Hpq.
  pose proof (Hcheck q Hq) as Hqp. rewrite forallb_forall in Hqp.
  specialize (Hpq q Hq). specialize (Hqp p Hp).
  apply orb_true_iff in Hpq, Hqp.
  destruct Hpq as [E|Npq]; [apply String.eqb_eq in E; contradiction|].
  destruct Hqp as [E|Nqp];
    [apply String.eqb_eq in E; symmetry in E; contradiction|].
  destruct (endswith_two name p q Ep Eq') as [H|H];
    rewrite H in *; discriminate.
Qed.

Lemma get_images_patterns entries :
  flat_map (fun ext =>
              (glob_star true entries ext
               ++ glob_star true entries (upper ext))%list)
    SUPPORTED_FORMATS
  = flat_map (fun p => glob_star true entries p) glob_patterns.
Proof.
  unfold glob_patterns, SUPPORTED_FORMATS. cbn [flat_map app].
  now rewrite <- !app_assoc.
Qed.

Lemma NoDup_globs entries (patterns : list string) :
  NoDup entries -> NoDup patterns ->
  (forall p q name, In p patterns -> In q patterns -> p <> q ->
     endswith name p = true -> endswith name q = true -> False) ->
  NoDup (flat_map (fun p => glob_star true entries p) patterns).
Proof.
  intros He Hp Hex. induction patterns as [|p rest IH]; cbn [flat_map].
  - constructor.
  - inversion Hp as [|? ? Hnotin Hrest]; subst.
    apply NoDup_app.
    + apply NoDup_filter. exact He.
    + apply IH; [exact Hrest|].
      intros a b name Ha Hb. apply Hex; now right.
    + intros name Hin Hin'.
      unfold glob_star in Hin. apply filter_In in Hin as [_ Ep].
      apply in_flat_map in Hin' as [q [Hq Hin']].
      unfold glob_star in Hin'. apply filter_In in Hin' as [_ Eq'].
      cbn [normcase] in Ep, Eq'.
      apply (Hex p q name); [now left | now right | | exact Ep | exact Eq'].
      intros ->. contradiction.
Qed.

Lemma insert_sorted_NoDup cs x l :
  ~ In x l -> NoDup l -> NoDup (insert_sorted cs x l).
Proof.
  induction l as [|y r IH]; cbn [insert_sorted]; intros Hx Hl.
  - constructor; [exact Hx | constructor].
  - destruct (String.ltb (normcase cs x) (normcase cs y)).
    + constructor; assumption.
    + inversion Hl as [|? ? Hy Hr]; subst.
      constructor.
      * rewrite insert_sorted_In. intros [E|Hin]; [|contradiction].
        subst. apply Hx. now left.
      * apply IH; [|exact Hr]. intros Hin. apply Hx. now right.
Qed.

Lemma fold_insert_In cs (r : list string) y :
  In y (fold_right (fun x acc => insert_sorted cs x acc) [] r) <-> In y r.
Proof.
  induction r as [|z r IH]; cbn [fold_right]; [reflexivity|].
  rewrite insert_sorted_In, IH. simpl. intuition.
Qed.

Lemma sorted_NoDup cs l : NoDup l -> NoDup (sorted cs l).
Proof.
  intros Hl. unfold sorted.
  assert (Hr : NoDup (rev l)) by now apply NoDup_rev.
  induction (rev l) as [|x r IH]; cbn [fold_right].
  - constructor.
  - inversion Hr as [|? ? Hx Hr']; subst.
    apply insert_sorted_NoDup; [|now apply IH].
    now rewrite fold_insert_In.
Qed.

(** X14: With case-sensitive matching and distinct entries, every selected name
    is returned once. *)
Lemma get_images_NoDup entries :
  NoDup entries -> NoDup (_get_images true entries).
Proof.
  intros He. unfold _get_images. apply sorted_NoDup.
  rewrite get_images_patterns.
  apply NoDup_globs; [exact He | |].
  - unfold glob_patterns, SUPPORTED_FORMATS. cbn.
    repeat (constructor; [cbn; intuition discriminate|]). constructor.
  - intros p q name. apply glob_patterns_exclusive.
Qed.

Lemma get_images_nothing cs : _get_images cs [] = [].
Proof. reflexivity. Qed.

(** C6 fails on the program.  With case-sensitive matching a name whose
    extension mixes upper and lower case is on the allow-list when compared
    case-insensitively, yet it is not selected; with case-insensitive
    matching the two patterns of an extension both match and a file is
    returned twice. *)
Theorem get_images_misses_mixed_case :
  has_supported_extension "photo.Jpg" = true
  /\ _get_images true ["photo.Jpg"] = []
  /\ _get_images true ["b.PNG"; "photo.Jpg"; "a.jpg"] = ["a.jpg"; "b.PNG"]
  /\ _get_images false ["a.jpg"] = ["a.jpg"; "a.jpg"].
Proof. repeat split; reflexivity. Qed.

(** ** Further properties of the selection *)

Lemma get_images_NoDup_witness :
  NoDup (_get_images true ["b.PNG"; "a.jpg"; "notes.txt"; "c.JPEG"]).
Proof.
  apply (get_images_NoDup ["b.PNG"; "a.jpg"; "notes.txt"; "c.JPEG"]).
  repeat (constructor; [cbn; intuition discriminate|]). constructor.
Defined.

Lemma endswith_lower (a b : string) :
  endswith a b = true -> endswith (lower a) (lower b) = true.
Proof.
  induction a as [|c r IH]; cbn [endswith]; intros H.
  - rewrite orb_false_r in H. apply String.eqb_eq in H. subst b.
    apply endswith_refl.
  - apply orb_true_iff in H as [H|H].
    + apply String.eqb_eq in H. subst b. apply endswith_refl.
    + unfold lower at 1. cbn [map_string]. apply endswith_tail.
      now apply IH.
Qed.

Lemma lower_idempotent (s : string) : lower (lower s) = lower s.
Proof.
  induction s as [|c r IH]; [reflexivity|].
  unfold lower in *. cbn [map_string]. rewrite IH. f_equal.
  destruct c as [[] [] [] [] [] [] [] []]; reflexivity.
Qed.

Lemma supported_formats_patterns cs (ext : string) :
  In ext SUPPORTED_FORMATS ->
  lower (normcase cs ext) = ext /\ lower (normcase cs (upper ext)) = ext.
Proof.
  unfold SUPPORTED_FORMATS. simpl.
  intros H;
    repeat (destruct H as [<-|H]; [destruct cs; split; reflexivity|]).
  contradiction.
Qed.

Lemma lower_normcase cs (s : string) : lower (normcase cs s) = lower s.
Proof. destruct cs; [reflexivity | apply lower_idempotent]. Qed.

Lemma get_images_sound cs entries name :
  In name (_get_images cs entries) ->
  In name entries /\ has_supported_extension name = true.
Proof.
  unfold _get_images. rewrite sorted_In, in_flat_map.
  intros [ext [Hext Hin]].
  destruct (supported_formats_patterns cs ext Hext) as [El Eu].
  apply in_app_or in Hin. unfold glob_star in Hin.
  rewrite !filter_In in Hin.
  unfold has_supported_extension.
  destruct Hin as [[Hn He]|[Hn He]]; (split; [exact Hn|]);
    apply existsb_exists; exists ext; (split; [exact Hext|]);
    apply endswith_lower in He; rewrite lower_normcase in He.
  - now rewrite El in He.
  - now rewrite Eu in He.
Qed.

Lemma get_images_complete entries name :
  In name entries -> has_supported_extension name = true ->
  In name (_get_images false entries).
Proof.
  intros Hn Hs. unfold has_supported_extension in Hs.
  apply existsb_exists in Hs as [ext [Hext He]].
  unfold _get_images. rewrite sorted_In, in_flat_map.
  exists ext. split; [exact Hext|].
  apply in_or_app. left. unfold glob_star. rewrite filter_In.
  split; [exact Hn|]. cbn [normcase].
  destruct (supported_formats_lower ext Hext) as [-> _]. exact He.
Qed.

(** X15: Every selected name is an entry of the folder whose lower-cased
    form ends with an extension of the allow-list, where names are matched
    with regard to case and, for a folder of ASCII names, where they are
    not; in the second case every such entry is selected. *)
Theorem get_images_allow_list cs entries name :
  (cs = false -> ascii_names entries = true) ->
  (In name (_get_images cs entries) ->
   In name entries /\ has_supported_extension name = true)
  /\ (cs = false ->
      In name entries /\ has_supported_extension name = true ->
      In name (_get_images cs entries)).
Proof.
  intros _. split; [apply get_images_sound|].
  intros -> [Hn Hs]. now apply get_images_complete.
Qed.

Lemma get_images_allow_list_witness :
  In "b.PNG" (_get_images false ["b.PNG"; "a.jpg"; "notes.txt"])
  /\ has_supported_extension "b.PNG" = true.
Proof.
  destruct (get_images_allow_list false ["b.PNG"; "a.jpg"; "notes.txt"]
              "b.PNG" (fun _ => eq_refl)) as [Hsound Hcomplete].
  assert (Hin : In "b.PNG" (_get_images false ["b.PNG"; "a.jpg"; "notes.txt"])).
  { apply Hcomplete; [reflexivity|]. split; [now left | reflexivity]. }
  split; [exact Hin|]. exact (proj2 (Hsound Hin)).
Defined.

Lemma get_images_none cs entries :
  (forall name, In name entries -> has_supported_extension name = false) ->
  _get_images cs entries = [].
Proof.
  intros H. destruct (_get_images cs entries) as [|name r] eqn:E;
    [reflexivity|].
  assert (Hin : In name (_get_images cs entries)) by (rewrite E; now left).
  apply get_images_sound in Hin as [Hn Hs].
  rewrite (H name Hn) in Hs. discriminate.
Qed.


(** *** Names matched without regard to case *)

Lemma insert_sorted_length cs x l :
  List.length (insert_sorted cs x l) = S (List.length l).
Proof.
  induction l as [|y r IH]; cbn [insert_sorted]; [reflexivity|].
  destruct (String.ltb _ _); cbn [List.length]; [reflexivity | now rewrite IH].
Qed.

Lemma sorted_length cs l : List.length (sorted cs l) = List.length l.
Proof.
  unfold sorted. rewrite <- (length_rev l).
  induction (rev l) as [|x r IH]; cbn [fold_right List.length];
    [reflexivity|].
  now rewrite insert_sorted_length, IH.
Qed.

Lemma exclusive_count (P : string -> bool) (l : list string) :
  NoDup l ->
  (forall a b, In a l -> In b l -> a <> b ->
               P a = true -> P b = true -> False) ->
  List.length (filter P l) = if existsb P l then 1%nat else 0%nat.
Proof.
  induction l as [|a r IH]; intros Hnd Hex; [reflexivity|].
  inversion Hnd as [|? ? Hnot Hr]; subst.
  cbn [filter existsb]. destruct (P a) eqn:Ea; cbn [orb].
  - assert (E : filter P r = []).
    { apply filter_nil. intros b Hb.
      destruct (P b) eqn:Eb; [|reflexivity]. exfalso.
      apply (Hex a b); [now left | now right | | exact Ea | exact Eb].
      intros ->. contradiction. }
    now rewrite E.
  - apply IH; [exact Hr|].
    intros x y Hx Hy. apply Hex; now right.
Qed.

Lemma supported_extension_count name :
  List.length (filter (fun ext => endswith (lower name) ext) SUPPORTED_FORMATS)
  = if has_supported_extension name then 1%nat else 0%nat.
Proof.
  unfold has_supported_extension. apply exclusive_count.
  - unfold SUPPORTED_FORMATS.
    repeat (constructor; [cbn; intuition discriminate|]). constructor.
  - intros a b Ha Hb Hne Ea Eb.
    apply (glob_patterns_exclusive a b (lower name)); try assumption;
      unfold glob_patterns; apply in_flat_map;
      [exists a | exists b]; (split; [assumption | now left]).
Qed.

Lemma glob_transposed (entries exts : list string) :
  List.length
    (flat_map (fun ext => filter (fun name => endswith (lower name) ext) entries)
       exts)
  = List.length
      (flat_map (fun name => filter (fun ext => endswith (lower name) ext) exts)
         entries).
Proof.
  revert entries. induction exts as [|ext r IH]; intros entries.
  - cbn [flat_map filter]. induction entries as [|e es IHe]; [reflexivity|].
    cbn [flat_map filter app]. exact IHe.
  - cbn [flat_map]. rewrite length_app, IH.
    induction entries as [|e es IHe]; [reflexivity|].
    cbn [flat_map filter] in IHe |- *. rewrite !length_app in *.
    destruct (endswith (lower e) ext); cbn [List.length]; lia.
Qed.

Lemma supported_entries_count (entries : list string) :
  List.length
    (flat_map (fun name =>
                 filter (fun ext => endswith (lower name) ext) SUPPORTED_FORMATS)
       entries)
  = List.length (filter has_supported_extension entries).
Proof.
  induction entries as [|e es IH]; [reflexivity|].
  cbn [flat_map filter]. rewrite length_app, IH, supported_extension_count.
  destruct (has_supported_extension e); reflexivity.
Qed.

Lemma glob_insensitive (entries : list string) (ext : string) :
  In ext SUPPORTED_FORMATS ->
  glob_star false entries ext
  = filter (fun name => endswith (lower name) ext) entries
  /\ glob_star false entries (upper ext)
     = filter (fun name => endswith (lower name) ext) entries.
Proof.
  unfold SUPPORTED_FORMATS, glob_star. simpl.
  intros H; repeat (destruct H as [<-|H]; [split; reflexivity|]).
  contradiction.
Qed.

Lemma flat_map_twice (f g : string -> list string) (l : list string) :
  (forall a, In a l ->
             List.length (f a) = (2 * List.length (g a))%nat) ->
  List.length (flat_map f l) = (2 * List.length (flat_map g l))%nat.
Proof.
  induction l as [|a r IH]; intros H; [reflexivity|].
  cbn [flat_map]. rewrite !length_app, (H a (or_introl eq_refl)), IH.
  - lia.
  - intros b Hb. apply H. now right.
Qed.

(** X16: Where names are matched without regard to case, in a folder of
    ASCII names, the two patterns of an extension match the same entries:
    every image of the folder is selected exactly twice. *)
Theorem get_images_twice_insensitive entries :
  ascii_names entries = true ->
  List.length (_get_images false entries)
  = (2 * List.length (filter has_supported_extension entries))%nat.
Proof.
  intros _. unfold _get_images. rewrite sorted_length.
  rewrite <- supported_entries_count, <- glob_transposed.
  apply flat_map_twice. intros ext Hext.
  destruct (glob_insensitive entries ext Hext) as [-> ->].
  rewrite length_app. lia.
Qed.

Lemma get_images_twice_insensitive_witness :
  List.length (_get_images false ["b.PNG"; "a.jpg"; "notes.txt"])
  = (2 * List.length
           (filter has_supported_extension ["b.PNG"; "a.jpg"; "notes.txt"]))%nat.
Proof.
  apply (get_images_twice_insensitive ["b.PNG"; "a.jpg"; "notes.txt"]).
  reflexivity.
Defined.

End FileSelection.

(** * Properties of the processing functions *)

Section ProcessingFacts.

Context {B : Backend}.

Implicit Types (st : state) (o : options) (url : string).

Ltac run_io :=
  unfold url_try, folder_try, iobind, print, on_world, lift, ret; simpl.

Ltac split_steps :=
  repeat match goal with
    | |- context [match ?x with _ => _ end] => destruct x eqn:?; simpl
    | H : context [match ?x with _ => _ end] |- _ =>
        destruct x eqn:?; simpl in H
    end.

Ltac open_pairs :=
  repeat match goal with
    | H : (_, _) = (_, _) |- _ => inversion H; subst; clear H
    end.

Ltac count_lines := unfold saved_lines, failure_lines in *; simpl in *; lia.

(** ** Printing *)

Lemma print_ok (m : message) st :
  print_error m = None ->
  print m st = (Ok tt, {| console := m :: console st; env := env st |}).
Proof. intros H. unfold print. now rewrite H. Qed.

Lemma print_raises (m : message) (e : exn) st :
  print_error m = Some e -> print m st = (Raise e, st).
Proof. intros H. unfold print. now rewrite H. Qed.

Lemma print_env (m : message) st : env (snd (print m st)) = env st.
Proof. unfold print. destruct (print_error m); reflexivity. Qed.

Lemma report_env {A : Type} (m : message) (a : A) st :
  env (snd (iobind (print m) (fun _ => ret a) st)) = env st.
Proof. unfold iobind, print, ret. destruct (print_error m); reflexivity. Qed.

(** ** One URL *)

Lemma url_try_path (output_folder : Path) url o st (p : Path) st' :
  url_try output_folder url o st = (Ok p, st') ->
  p = url_target output_folder url o.
Proof.
  run_io. intros H. split_steps; try discriminate.
  now inversion H.
Qed.

Lemma process_from_url_ok (output_folder : Path) url o st (p : Path) st' :
  url_try output_folder url o st = (Ok p, st') ->
  process_from_url output_folder url o st = (Ok (Some p), st').
Proof. intros H. unfold process_from_url. now rewrite H. Qed.

Lemma process_from_url_caught (output_folder : Path) url o st (e0 : exn) st0 :
  url_try output_folder url o st = (Raise e0, st0) ->
  process_from_url output_folder url o st
  = match print_error (failure_line e0) with
    | None =>
        (Ok None,
         {| console := failure_line e0 :: console st0; env := env st0 |})
    | Some e => (Raise e, st0)
    end.
Proof.
  intros H. unfold process_from_url. rewrite H.
  unfold iobind, print, ret. destruct (print_error _); reflexivity.
Qed.

Lemma process_from_url_returns (output_folder : Path) url o st :
  prints_all ->
  exists r st', process_from_url output_folder url o st = (Ok r, st').
Proof.
  intros Hp.
  destruct (url_try output_folder url o st) as [[p|e0] st0] eqn:E.
  - exists (Some p), st0. now apply process_from_url_ok.
  - rewrite (process_from_url_caught _ _ _ _ _ _ E), Hp. eauto.
Qed.

Lemma process_from_url_path (output_folder : Path) url o st (p : Path) st' :
  process_from_url output_folder url o st = (Ok (Some p), st') ->
  p = url_target output_folder url o.
Proof.
  unfold process_from_url.
  destruct (url_try output_folder url o st) as [[q|e] st1] eqn:E.
  - intros H. inversion H; subst. exact (url_try_path _ _ _ _ _ _ E).
  - unfold iobind, print, ret. destruct (print_error _); discriminate.
Qed.

Lemma process_from_url_raises (output_folder : Path) url o st (e : exn) st' :
  process_from_url output_folder url o st = (Raise e, st') ->
  exists e0, url_try output_folder url o st = (Raise e0, st')
             /\ print_error (failure_line e0) = Some e.
Proof.
  unfold process_from_url.
  destruct (url_try output_folder url o st) as [[q|e0] st1] eqn:E;
    [discriminate|].
  unfold iobind, print, ret.
  destruct (print_error (failure_line e0)) as [e1|] eqn:Ep; [|discriminate].
  intros H. inversion H; subst. now exists e0.
Qed.

(** ** A batch of URLs *)

Lemma urls_loop_step (output_folder : Path) (total : nat) o url
    (rest : list string) (i successful : nat) st :
  urls_loop output_folder total o (url :: rest) i successful st
  = match print (MsgItem i total) st with
    | (Ok _, st1) =>
        match process_from_url output_folder url o st1 with
        | (Ok r, st2) =>
            urls_loop output_folder total o rest (S i)
              match r with
              | Some _ => S successful
              | None => successful
              end st2
        | (Raise e, st2) => (Raise e, st2)
        end
    | (Raise e, st1) => (Raise e, st1)
    end.
Proof.
  cbn [urls_loop]. unfold iobind.
  destruct (print (MsgItem i total) st) as [[u|e] st1]; reflexivity.
Qed.

Lemma urls_loop_tally (output_folder : Path) (total : nat) o
    (urls : list string) :
  prints_all ->
  forall (i successful : nat) st,
    exists st',
      urls_loop output_folder total o urls i successful st
      = (Ok (successful
             + successes (urls_outcomes output_folder total o urls i st))%nat,
         st')
      /\ List.length (urls_outcomes output_folder total o urls i st)
         = List.length urls.
Proof.
  intros Hp. induction urls as [|url rest IH]; intros i successful st.
  - exists st. split; [|reflexivity].
    cbn. unfold ret, successes. simpl. f_equal. f_equal. lia.
  - rewrite urls_loop_step. cbn [urls_outcomes].
    rewrite (print_ok _ st (Hp _)).
    destruct (process_from_url_returns output_folder url o
                {| console := MsgItem i total :: console st; env := env st |}
                Hp) as [r [st2 E]].
    rewrite E.
    destruct (IH (S i) match r with
                       | Some _ => S successful
                       | None => successful
                       end st2) as [st' [El Ll]].
    exists st'. rewrite El. cbn [List.length]. rewrite Ll.
    split; [|reflexivity].
    f_equal. f_equal. unfold successes. destruct r; simpl; lia.
Qed.

(** C7 fails on the program.  As long as the standard output takes every
    line, [process_from_url] returns the output path when the fetch, the
    decoding, the size computation, the resize and the save all succeed, and
    [None] when the fetch, the decoding or the save fails, or when anything
    else in the item raises; in a batch every item is then processed
    whatever happened to the ones before it, and the tally counts exactly
    the items that returned a path.  But the [except] clauses themselves
    print: when the line that reports a failure cannot be printed, the
    exception of that [print] leaves [process_from_url], and with it the
    loop of [process_from_urls], whose remaining items are not processed;
    and when the line that reports a saved file cannot be printed, the item
    returns [None] although its file has been saved. *)
Theorem process_from_url_contains_failures (output_folder : Path) url o st
    (urls : list string) :
  (prints_all ->
   (forall c w1 img new_size resized final w2,
       http_get url (env st) = (Ok c, w1) ->
       image_open c = Ok img ->
       _calculate_size (image_size img) (opt_width o) (opt_height o)
         (opt_scale o) (opt_maintain_aspect o) = Ok new_size ->
       image_resize img new_size = Ok resized ->
       image_to_save resized (opt_output_format o) = Ok final ->
       image_save final (url_target output_folder url o)
         (save_arguments (opt_output_format o) (opt_quality o)) w1
       = (Ok tt, w2) ->
       fst (process_from_url output_folder url o st)
       = Ok (Some (url_target output_folder url o))
       /\ env (snd (process_from_url output_folder url o st)) = w2)
   /\ (forall e w1,
         http_get url (env st) = (Raise e, w1) ->
         fst (process_from_url output_folder url o st) = Ok None)
   /\ (forall c w1 e,
         http_get url (env st) = (Ok c, w1) ->
         image_open c = Raise e ->
         fst (process_from_url output_folder url o st) = Ok None)
   /\ (forall c w1 img new_size resized final e w2,
         http_get url (env st) = (Ok c, w1) ->
         image_open c = Ok img ->
         _calculate_size (image_size img) (opt_width o) (opt_height o)
           (opt_scale o) (opt_maintain_aspect o) = Ok new_size ->
         image_resize img new_size = Ok resized ->
         image_to_save resized (opt_output_format o) = Ok final ->
         image_save final (url_target output_folder url o)
           (save_arguments (opt_output_format o) (opt_quality o)) w1
         = (Raise e, w2) ->
         fst (process_from_url output_folder url o st) = Ok None)
   /\ (forall e st',
         url_try output_folder url o st = (Raise e, st') ->
         fst (process_from_url output_folder url o st) = Ok None)
   /\ (forall (total i successful : nat) st2,
         process_from_url output_folder url o
           (snd (print (MsgItem i total) st)) = (Ok None, st2) ->
         urls_loop output_folder total o (url :: urls) i successful st
         = urls_loop output_folder total o urls (S i) successful st2)
   /\ (let st0 := snd (print (MsgBatchStart (List.length urls)) st) in
       let outcomes :=
         urls_outcomes output_folder (List.length urls) o urls 1 st0 in
       List.length outcomes = List.length urls
       /\ fst (process_from_urls output_folder urls o st)
          = Ok (successes outcomes)))
  /\ (forall e0 st0 e,
        url_try output_folder url o st = (Raise e0, st0) ->
        print_error (failure_line e0) = Some e ->
        process_from_url output_folder url o st = (Raise e, st0))
  /\ (forall e st',
        process_from_url output_folder url o st = (Raise e, st') ->
        exists e0, url_try output_folder url o st = (Raise e0, st')
                   /\ print_error (failure_line e0) = Some e)
  /\ (forall (total i successful : nat) e st',
        print_error (MsgItem i total) = None ->
        process_from_url output_folder url o
          (snd (print (MsgItem i total) st)) = (Raise e, st') ->
        urls_loop output_folder total o (url :: urls) i successful st
        = (Raise e, st'))
  /\ (forall c w1 img new_size resized final w2 e,
        print_error (MsgDownloading url) = None ->
        http_get url (env st) = (Ok c, w1) ->
        image_open c = Ok img ->
        print_error (MsgOriginalSize (image_size img)) = None ->
        _calculate_size (image_size img) (opt_width o) (opt_height o)
          (opt_scale o) (opt_maintain_aspect o) = Ok new_size ->
        print_error (MsgNewSize new_size) = None ->
        image_resize img new_size = Ok resized ->
        image_to_save resized (opt_output_format o) = Ok final ->
        image_save final (url_target output_folder url o)
          (save_arguments (opt_output_format o) (opt_quality o)) w1
        = (Ok tt, w2) ->
        print_error (MsgSaved (url_target output_folder url o)) = Some e ->
        print_error (failure_line e) = None ->
        fst (process_from_url output_folder url o st) = Ok None
        /\ env (snd (process_from_url output_folder url o st)) = w2).
Proof.
  split; [intros Hp; split; [|split; [|split; [|split; [|split; [|split]]]]]
         | split; [|split; [|split]]].
  - intros c w1 img new_size resized final w2 H H0 H1 H2 H3 H4.
    unfold process_from_url. run_io. unfold url_target in *.
    rewrite ?Hp. simpl.
    rewrite H. simpl. rewrite H0. simpl. rewrite ?Hp. simpl.
    rewrite H1. simpl. rewrite ?Hp. simpl. rewrite H2. simpl.
    rewrite H3. simpl. rewrite H4. simpl. rewrite ?Hp. simpl.
    split; reflexivity.
  - intros e w1 H.
    destruct (url_try output_folder url o st) as [[p|e0] st0] eqn:E.
    + exfalso. revert E. run_io. rewrite ?Hp. simpl. rewrite H. simpl.
      discriminate.
    + now rewrite (process_from_url_caught _ _ _ _ _ _ E), Hp.
  - intros c w1 e H H0.
    destruct (url_try output_folder url o st) as [[p|e0] st0] eqn:E.
    + exfalso. revert E. run_io. rewrite ?Hp. simpl. rewrite H. simpl.
      rewrite H0. simpl. discriminate.
    + now rewrite (process_from_url_caught _ _ _ _ _ _ E), Hp.
  - intros c w1 img new_size resized final e w2 H H0 H1 H2 H3 H4.
    destruct (url_try output_folder url o st) as [[p|e0] st0] eqn:E.
    + exfalso. revert E. run_io. unfold url_target in *.
      rewrite ?Hp. simpl. rewrite H. simpl. rewrite H0. simpl.
      rewrite ?Hp. simpl. rewrite H1. simpl. rewrite ?Hp. simpl.
      rewrite H2. simpl. rewrite H3. simpl. rewrite H4. simpl.
      discriminate.
    + now rewrite (process_from_url_caught _ _ _ _ _ _ E), Hp.
  - intros e st' H.
    now rewrite (process_from_url_caught _ _ _ _ _ _ H), Hp.
  - intros total i successful st2 H. rewrite urls_loop_step.
    rewrite (print_ok _ st (Hp _)) in *. cbn [snd] in H. now rewrite H.
  - intros st0 outcomes. subst st0 outcomes.
    rewrite (print_ok _ st (Hp _)). cbn [snd].
    destruct (urls_loop_tally output_folder (List.length urls) o urls Hp 1 0
                {| console := MsgBatchStart (List.length urls) :: console st;
                   env := env st |}) as [st' [El Ll]].
    split; [exact Ll|].
    unfold process_from_urls, iobind.
    rewrite (print_ok _ st (Hp _)), El.
    rewrite (print_ok _ st' (Hp _)).
    rewrite (print_ok _ _ (Hp (MsgOutputFolder output_folder))).
    reflexivity.
  - intros e0 st0 e H He.
    now rewrite (process_from_url_caught _ _ _ _ _ _ H), He.
  - intros e st'. apply process_from_url_raises.
  - intros total i successful e st' Hi H. rewrite urls_loop_step.
    rewrite (print_ok _ st Hi) in *. cbn [snd] in H. now rewrite H.
  - intros c w1 img new_size resized final w2 e
      P1 H H0 P2 H1 P3 H2 H3 H4 P4 P5.
    assert (E : url_try output_folder url o st
                = (Raise e,
                   {| console := MsgNewSize new_size
                                 :: MsgOriginalSize (image_size img)
                                 :: MsgDownloading url :: console st;
                      env := w2 |})).
    { run_io. unfold url_target in *. rewrite P1. simpl. rewrite H. simpl.
      rewrite H0. simpl. rewrite P2. simpl. rewrite H1. simpl.
      rewrite P3. simpl. rewrite H2. simpl. rewrite H3. simpl.
      rewrite H4. simpl. rewrite P4. reflexivity. }
    rewrite (process_from_url_caught _ _ _ _ _ _ E), P5.
    split; reflexivity.
Qed.


(** ** The flattening of transparency *)

Lemma format_png_not_jpeg (output_format : option string) :
  format_is output_format ["png"] = true ->
  format_is output_format ["jpg"; "jpeg"] = false.
Proof.
  unfold format_is. destruct (given_string output_format) as [fmt|];
    [|discriminate].
  simpl. destruct (String.eqb_spec (lower fmt) "png") as [->|]; simpl;
    [reflexivity | discriminate].
Qed.

Lemma flattens_guard (m : string) (output_format : option string) :
  flattens m output_format
  = (m =? "RGBA") && format_is output_format ["jpg"; "jpeg"].
Proof.
  unfold flattens.
  destruct (format_is output_format ["png"]) eqn:Hpng; simpl.
  - rewrite (format_png_not_jpeg output_format Hpng).
    now rewrite andb_false_r.
  - reflexivity.
Qed.

Lemma image_to_save_guard (resized : image) (output_format : option string) :
  image_to_save resized output_format
  = if (image_mode resized =? "RGBA")
       && format_is output_format ["jpg"; "jpeg"]
    then flatten_on_white resized
    else Ok resized.
Proof. unfold image_to_save. now rewrite flattens_guard. Qed.

(** C8 fails on the program.  In the URL path and in the folder path alike
    the resized image is flattened onto white before it is saved exactly
    when its mode is RGBA and a format is requested whose lower-cased name
    is jpg or jpeg, and the image handed to [save] is the resized image as
    this test leaves it.  So two conversions of a transparent image into a
    format without alpha are missed: an RGBA image fetched from a URL whose
    last segment has no image extension is saved under the [.jpg] name the
    program itself derives, unflattened, when no format is requested; and
    an image in any other mode with an alpha band is never flattened,
    whatever the format. *)
Theorem flatten_only_rgba_to_jpeg (output_folder input_folder : Path) url
    (name : string) o st (processed : nat) :
  (forall resized,
      image_to_save resized (opt_output_format o)
      = if (image_mode resized =? "RGBA")
           && format_is (opt_output_format o) ["jpg"; "jpeg"]
        then flatten_on_white resized
        else Ok resized)
  /\ (forall c w1 img new_size resized,
        print_error (MsgDownloading url) = None ->
        http_get url (env st) = (Ok c, w1) ->
        image_open c = Ok img ->
        print_error (MsgOriginalSize (image_size img)) = None ->
        _calculate_size (image_size img) (opt_width o) (opt_height o)
          (opt_scale o) (opt_maintain_aspect o) = Ok new_size ->
        print_error (MsgNewSize new_size) = None ->
        image_resize img new_size = Ok resized ->
        env (snd (process_from_url output_folder url o st))
        = match image_to_save resized (opt_output_format o) with
          | Ok final =>
              snd (image_save final (url_target output_folder url o)
                     (save_arguments (opt_output_format o) (opt_quality o)) w1)
          | Raise _ => w1
          end)
  /\ (forall w1 img new_size resized,
        file_open (joinpath input_folder name) (env st) = (Ok img, w1) ->
        print_error (MsgProcessing name) = None ->
        print_error (MsgOriginalSize (image_size img)) = None ->
        _calculate_size (image_size img) (opt_width o) (opt_height o)
          (opt_scale o) (opt_maintain_aspect o) = Ok new_size ->
        print_error (MsgNewSize new_size) = None ->
        image_resize img new_size = Ok resized ->
        env (snd (folder_item output_folder input_folder name o processed st))
        = match image_to_save resized (opt_output_format o) with
          | Ok final =>
              snd (image_save final (folder_target output_folder name o)
                     (save_arguments (opt_output_format o) (opt_quality o)) w1)
          | Raise _ => w1
          end)
  /\ (forall resized,
        opt_output_format o = None -> opt_filename o = None ->
        path_name (parse_path url) <> "" ->
        has_supported_extension (path_name (parse_path url)) = false ->
        image_mode resized = "RGBA" ->
        image_to_save resized (opt_output_format o) = Ok resized
        /\ url_output_filename url (opt_filename o) (opt_output_format o)
           = path_name (parse_path url) ++ ".jpg")
  /\ (forall resized,
        image_mode resized <> "RGBA" ->
        image_to_save resized (opt_output_format o) = Ok resized).
Proof.
  split; [|split; [|split; [|split]]].
  - intros resized. apply image_to_save_guard.
  - intros c w1 img new_size resized P1 H H0 P2 H1 P3 H2.
    unfold process_from_url. run_io. unfold url_target.
    rewrite P1. simpl. rewrite H. simpl. rewrite H0. simpl.
    rewrite P2. simpl. rewrite H1. simpl. rewrite P3. simpl.
    rewrite H2. simpl.
    destruct (image_to_save resized (opt_output_format o)) as [final|e];
      simpl.
    + destruct (image_save final _ _ w1) as [[[]|e] w2]; simpl;
        repeat match goal with
          | |- context [print_error ?m] => destruct (print_error m); simpl
          end; reflexivity.
    + destruct (print_error (failure_line e)); reflexivity.
  - intros w1 img new_size resized H P1 P2 H1 P3 H2.
    unfold folder_item. run_io. unfold folder_target.
    rewrite H. simpl. rewrite P1. simpl. rewrite P2. simpl.
    rewrite H1. simpl. rewrite P3. simpl. rewrite H2. simpl.
    destruct (image_to_save resized (opt_output_format o)) as [final|e];
      simpl.
    + destruct (image_save final _ _ w1) as [[[]|e] w2]; simpl;
        repeat match goal with
          | |- context [print_error ?m] => destruct (print_error m); simpl
          end; reflexivity.
    + destruct (print_error (MsgItemFailed name e)); reflexivity.
  - intros resized Hfmt Hname Hne Hext Hmode. split.
    + rewrite image_to_save_guard, Hfmt. cbn [format_is given_string].
      now rewrite andb_false_r.
    + unfold url_output_filename, base_filename, derived_filename.
      rewrite Hfmt, Hname. cbn [given_string].
      apply String.eqb_neq in Hne. now rewrite Hne, Hext.
  - intros resized Hmode. rewrite image_to_save_guard.
    apply String.eqb_neq in Hmode. now rewrite Hmode.
Qed.

(** C9: when a format is requested, the name [process_from_url] saves under
    is the stem of the explicit or derived filename followed by a dot and
    the lower-cased format: that is the path handed to [save], and the path
    returned when the save succeeds; an extension of the explicit filename
    is replaced. *)
Theorem url_format_replaces_extension (output_folder : Path) url o st
    (fmt : string) :
  opt_output_format o = Some fmt -> fmt <> "" ->
  url_output_filename url (opt_filename o) (opt_output_format o)
  = path_stem (parse_path (base_filename url (opt_filename o)))
    ++ "." ++ lower fmt
  /\ url_target output_folder url o
     = joinpath output_folder
         (path_stem (parse_path (base_filename url (opt_filename o)))
          ++ "." ++ lower fmt)
  /\ (forall c w1 img new_size resized final,
        print_error (MsgDownloading url) = None ->
        http_get url (env st) = (Ok c, w1) ->
        image_open c = Ok img ->
        print_error (MsgOriginalSize (image_size img)) = None ->
        _calculate_size (image_size img) (opt_width o) (opt_height o)
          (opt_scale o) (opt_maintain_aspect o) = Ok new_size ->
        print_error (MsgNewSize new_size) = None ->
        image_resize img new_size = Ok resized ->
        image_to_save resized (opt_output_format o) = Ok final ->
        env (snd (process_from_url output_folder url o st))
        = snd (image_save final
                 (joinpath output_folder
                    (path_stem (parse_path (base_filename url (opt_filename o)))
                     ++ "." ++ lower fmt))
                 (save_arguments (opt_output_format o) (opt_quality o)) w1)
        /\ (forall w2,
              image_save final
                (joinpath output_folder
                   (path_stem (parse_path (base_filename url (opt_filename o)))
                    ++ "." ++ lower fmt))
                (save_arguments (opt_output_format o) (opt_quality o)) w1
              = (Ok tt, w2) ->
              print_error
                (MsgSaved
                   (joinpath output_folder
                      (path_stem
                         (parse_path (base_filename url (opt_filename o)))
                       ++ "." ++ lower fmt))) = None ->
              fst (process_from_url output_folder url o st)
              = Ok (Some
                      (joinpath output_folder
                         (path_stem
                            (parse_path (base_filename url (opt_filename o)))
                          ++ "." ++ lower fmt)))))
  /\ (forall p st',
        process_from_url output_folder url o st = (Ok (Some p), st') ->
        p = joinpath output_folder
              (path_stem (parse_path (base_filename url (opt_filename o)))
               ++ "." ++ lower fmt))
  /\ (forall stem ext,
        opt_filename o = Some (stem ++ "." ++ ext) ->
        stem <> "" -> ext <> "" ->
        contains_char "/" stem = false ->
        contains_char "/" ext = false ->
        contains_char "." ext = false ->
        url_output_filename url (opt_filename o) (opt_output_format o)
        = stem ++ "." ++ lower fmt).
Proof.
  intros Hfmt Hne.
  assert (E : url_output_filename url (opt_filename o) (opt_output_format o)
              = path_stem (parse_path (base_filename url (opt_filename o)))
                ++ "." ++ lower fmt).
  { unfold url_output_filename. rewrite Hfmt.
    now rewrite (given_string_nonempty fmt Hne). }
  split; [exact E | split; [|split; [|split]]].
  - unfold url_target. now rewrite E.
  - intros c w1 img new_size resized final P1 H H0 P2 H1 P3 H2 H3.
    rewrite <- E. fold (url_target output_folder url o).
    split.
    + unfold process_from_url. run_io. unfold url_target.
      rewrite P1. simpl. rewrite H. simpl. rewrite H0. simpl.
      rewrite P2. simpl. rewrite H1. simpl. rewrite P3. simpl.
      rewrite H2. simpl. rewrite H3. simpl.
      destruct (image_save final _ _ w1) as [[[]|e] w2]; simpl;
        repeat match goal with
          | |- context [print_error ?m] => destruct (print_error m); simpl
          end; reflexivity.
    + intros w2 H4 P4.
      unfold process_from_url. run_io. unfold url_target in *.
      rewrite P1. simpl. rewrite H. simpl. rewrite H0. simpl.
      rewrite P2. simpl. rewrite H1. simpl. rewrite P3. simpl.
      rewrite H2. simpl. rewrite H3. simpl. rewrite H4. simpl.
      rewrite P4. reflexivity.
  - intros p st' H. rewrite <- E.
    exact (process_from_url_path _ _ _ _ _ _ H).
  - intros stem ext Hname Hs He Hss Hse Hde.
    rewrite E. unfold base_filename. rewrite Hname.
    assert (Hn : stem ++ "." ++ ext <> "").
    { intros C. apply append_empty in C as [C _]. contradiction. }
    rewrite (given_string_nonempty _ Hn).
    unfold path_stem. rewrite path_name_plain.
    + now rewrite stem_of_name_extension.
    + rewrite !contains_char_append. rewrite Hss, Hse. reflexivity.
    + exact Hn.
    + intros C. destruct stem as [|c stem]; [contradiction|].
      simpl in C. inversion C as [[Hc Hr]].
      apply append_empty in Hr as [_ Hr]. discriminate.
Qed.


(** ** Where the files are written *)





(** ** What is reported, and what is left untouched *)

Lemma url_try_lines (output_folder : Path) url o st (r : result Path) st' :
  url_try output_folder url o st = (r, st') ->
  failure_lines (console st') = failure_lines (console st)
  /\ saved_lines (console st')
     = (saved_lines (console st)
        + match r with Ok _ => 1 | Raise _ => 0 end)%nat.
Proof.
  run_io. intros H. split_steps; open_pairs; split; count_lines.
Qed.

Lemma folder_try_lines (output_folder input_folder : Path) (name : string)
    o st (r : result Path) st' :
  folder_try output_folder input_folder name o st = (r, st') ->
  failure_lines (console st') = failure_lines (console st)
  /\ saved_lines (console st') = saved_lines (console st).
Proof.
  run_io. intros H. split_steps; open_pairs; split; count_lines.
Qed.

Lemma process_from_url_lines (output_folder : Path) url o st
    (r : result (option Path)) st' :
  process_from_url output_folder url o st = (r, st') ->
  saved_lines (console st')
  = (saved_lines (console st)
     + match r with Ok (Some _) => 1 | _ => 0 end)%nat
  /\ failure_lines (console st')
     = (failure_lines (console st)
        + match r with Ok None => 1 | _ => 0 end)%nat.
Proof.
  unfold process_from_url.
  destruct (url_try output_folder url o st) as [[p|e] st1] eqn:E;
    apply url_try_lines in E as [Hf Hs].
  - intros H. inversion H; subst. split; lia.
  - unfold iobind, print, ret.
    destruct (print_error (failure_line e)); intros H; inversion H; subst;
      destruct e; split; count_lines.
Qed.

Lemma urls_loop_lines (output_folder : Path) (total : nat) o
    (urls : list string) :
  prints_all ->
  forall (i successful : nat) st,
    exists n st',
      urls_loop output_folder total o urls i successful st = (Ok n, st')
      /\ (successful <= n <= successful + List.length urls)%nat
      /\ (saved_lines (console st') + successful
          = saved_lines (console st) + n)%nat
      /\ (failure_lines (console st') + n
          = failure_lines (console st) + successful + List.length urls)%nat.
Proof.
  intros Hp. induction urls as [|url rest IH]; intros i successful st.
  - exists successful, st. cbn. unfold ret. split; [reflexivity|]. lia.
  - rewrite urls_loop_step, (print_ok _ st (Hp _)).
    destruct (process_from_url_returns output_folder url o
                {| console := MsgItem i total :: console st; env := env st |}
                Hp) as [r [st2 E]].
    rewrite E. apply process_from_url_lines in E as [Hs Hf].
    destruct (IH (S i) match r with
                       | Some _ => S successful
                       | None => successful
                       end st2) as [n [st' [El [H1 [H2 H3]]]]].
    exists n, st'. split; [exact El|].
    cbn [List.length]. destruct r; count_lines.
Qed.

(** X22: On a standard output that takes every line, [process_from_urls]
    runs to its end; its tally is the number of "Saved" lines it prints,
    the URLs it does not count each get one failure line, and the tally
    never exceeds the number of URLs. *)
Theorem urls_report_matches_tally (output_folder : Path)
    (urls : list string) o st :
  prints_all ->
  exists n st',
    process_from_urls output_folder urls o st = (Ok n, st')
    /\ (n <= List.length urls)%nat
    /\ saved_lines (console st') = (saved_lines (console st) + n)%nat
    /\ (failure_lines (console st') + n
        = failure_lines (console st) + List.length urls)%nat.
Proof.
  intros Hp. unfold process_from_urls, iobind.
  rewrite (print_ok _ st (Hp _)).
  destruct (urls_loop_lines output_folder (List.length urls) o urls Hp 1 0
              {| console := MsgBatchStart (List.length urls) :: console st;
                 env := env st |}) as [n [st1 [El [H1 [H2 H3]]]]].
  rewrite El, (print_ok _ st1 (Hp _)).
  rewrite (print_ok _ _ (Hp (MsgOutputFolder output_folder))).
  eexists _, _. split; [reflexivity|]. count_lines.
Qed.

Lemma folder_item_lines (output_folder input_folder : Path) (name : string)
    o (processed : nat) st :
  prints_all ->
  exists n st',
    folder_item output_folder input_folder name o processed st = (Ok n, st')
    /\ ((n = S processed
         /\ saved_lines (console st') = S (saved_lines (console st))
         /\ failure_lines (console st') = failure_lines (console st))
        \/ (n = processed
            /\ saved_lines (console st') = saved_lines (console st)
            /\ failure_lines (console st')
               = S (failure_lines (console st)))).
Proof.
  intros Hp. unfold folder_item.
  destruct (folder_try output_folder input_folder name o st)
    as [[p|e] st1] eqn:E; apply folder_try_lines in E as [Hf Hs].
  - rewrite (print_ok _ st1 (Hp _)).
    eexists _, _. split; [reflexivity|]. left. count_lines.
  - unfold iobind, ret. rewrite (print_ok _ st1 (Hp _)).
    eexists _, _. split; [reflexivity|]. right. count_lines.
Qed.

Lemma folder_loop_lines (output_folder input_folder : Path) o
    (names : list string) :
  prints_all ->
  forall (processed : nat) st,
    exists n st',
      folder_loop output_folder input_folder o names processed st = (Ok n, st')
      /\ (processed <= n <= processed + List.length names)%nat
      /\ (saved_lines (console st') + processed
          = saved_lines (console st) + n)%nat
      /\ (failure_lines (console st') + n
          = failure_lines (console st) + processed + List.length names)%nat.
Proof.
  intros Hp. induction names as [|name rest IH]; intros processed st.
  - exists processed, st. cbn. unfold ret. split; [reflexivity|]. lia.
  - cbn [folder_loop]. unfold iobind.
    destruct (folder_item_lines output_folder input_folder name o processed
                st Hp) as [k [st1 [E Hk]]].
    rewrite E.
    destruct (IH k st1) as [n [st' [El [H1 [H2 H3]]]]].
    exists n, st'. split; [exact El|].
    cbn [List.length]. destruct Hk as [[-> [Hs Hf]]|[-> [Hs Hf]]]; lia.
Qed.

(** X23: On a standard output that takes every line, [process_from_folder]
    runs to its end; its tally is the number of "Saved" lines it prints,
    every selected image it does not count gets one failure line, so a
    failing image does not stop the run, and the tally never exceeds the
    number of selected images. *)
Theorem folder_report_matches_tally (cs : bool)
    (output_folder input_folder : Path) o st :
  prints_all ->
  exists n st',
    process_from_folder cs output_folder input_folder o st = (Ok n, st')
    /\ (n <= List.length
               (_get_images cs (list_folder input_folder (env st))))%nat
    /\ saved_lines (console st') = (saved_lines (console st) + n)%nat
    /\ (failure_lines (console st') + n
        = failure_lines (console st)
          + List.length
              (_get_images cs (list_folder input_folder (env st))))%nat.
Proof.
  intros Hp. unfold process_from_folder.
  destruct (_get_images cs (list_folder input_folder (env st)))
    as [|name rest] eqn:Ei.
  - unfold iobind, ret. rewrite (print_ok _ st (Hp _)).
    eexists _, _. split; [reflexivity|]. count_lines.
  - unfold iobind, ret. rewrite (print_ok _ st (Hp _)).
    destruct (folder_loop_lines output_folder input_folder o (name :: rest)
                Hp 0
                {| console := MsgFound (List.length (name :: rest))
                              :: console st;
                   env := env st |}) as [n [st1 [El [H1 [H2 H3]]]]].
    rewrite El, (print_ok _ st1 (Hp _)).
    rewrite (print_ok _ _ (Hp (MsgOutputFolder output_folder))).
    eexists _, _. split; [reflexivity|]. count_lines.
Qed.

(** X20: A request error of the fetch is reported as a failed download, an
    exception of the size calculation (a zero dimension, a scale that is
    not a finite number) as a failed processing: [None] is returned when
    the line that reports the failure is printed, and the exception of that
    [print] leaves [process_from_url] when it is not.  In every case no file
    is saved: the world is as the fetch left it. *)
Theorem url_failures_are_reported (output_folder : Path) url o st :
  (forall w1,
      print_error (MsgDownloading url) = None ->
      http_get url (env st) = (Raise RequestException, w1) ->
      process_from_url output_folder url o st
      = match print_error (MsgDownloadFailed RequestException) with
        | None =>
            (Ok None,
             {| console := MsgDownloadFailed RequestException
                           :: MsgDownloading url :: console st;
                env := w1 |})
        | Some e' =>
            (Raise e',
             {| console := MsgDownloading url :: console st; env := w1 |})
        end)
  /\ (forall c w1 img e,
        print_error (MsgDownloading url) = None ->
        http_get url (env st) = (Ok c, w1) ->
        image_open c = Ok img ->
        print_error (MsgOriginalSize (image_size img)) = None ->
        _calculate_size (image_size img) (opt_width o) (opt_height o)
          (opt_scale o) (opt_maintain_aspect o) = Raise e ->
        process_from_url output_folder url o st
        = match print_error (MsgProcessFailed e) with
          | None =>
              (Ok None,
               {| console := MsgProcessFailed e
                             :: MsgOriginalSize (image_size img)
                             :: MsgDownloading url :: console st;
                  env := w1 |})
          | Some e' =>
              (Raise e',
               {| console := MsgOriginalSize (image_size img)
                             :: MsgDownloading url :: console st;
                  env := w1 |})
          end).
Proof.
  split.
  - intros w1 P1 H.
    assert (E : url_try output_folder url o st
                = (Raise RequestException,
                   {| console := MsgDownloading url :: console st;
                      env := w1 |})).
    { run_io. rewrite P1. simpl. now rewrite H. }
    now rewrite (process_from_url_caught _ _ _ _ _ _ E).
  - intros c w1 img e P1 H H0 P2 H1.
    assert (E : url_try output_folder url o st
                = (Raise e,
                   {| console := MsgOriginalSize (image_size img)
                                 :: MsgDownloading url :: console st;
                      env := w1 |})).
    { run_io. rewrite P1. simpl. rewrite H. simpl. rewrite H0. simpl.
      rewrite P2. simpl. now rewrite H1. }
    rewrite (process_from_url_caught _ _ _ _ _ _ E).
    apply calculate_size_raises in H1.
    destruct e; try discriminate H1; reflexivity.
Qed.




(** X24: A folder none of whose entries has an allowed extension (a folder
    of ASCII names, where names are matched without regard to case): the
    single line that says so is printed and the tally is zero, or the
    exception of that [print] leaves [process_from_folder]; in both cases
    the world is left as it was. *)
Theorem folder_without_images (cs : bool) (output_folder input_folder : Path)
    o st :
  (cs = false -> ascii_names (list_folder input_folder (env st)) = true) ->
  (forall name, In name (list_folder input_folder (env st)) ->
                has_supported_extension name = false) ->
  process_from_folder cs output_folder input_folder o st
  = match print_error (MsgNoImages input_folder) with
    | None =>
        (Ok O, {| console := MsgNoImages input_folder :: console st;
                  env := env st |})
    | Some e => (Raise e, st)
    end.
Proof.
  intros _ H. unfold process_from_folder.
  rewrite (get_images_none cs _ H).
  unfold iobind, print, ret.
  destruct (print_error (MsgNoImages input_folder)); reflexivity.
Qed.


End ProcessingFacts.

(** * The processing functions on the in-memory backend *)

Section InMemory.

Lemma memory_prints_all : @prints_all Memory.backend.
Proof. intros m. reflexivity. Defined.

Lemma process_from_url_contains_failures_witness :
  fst (process_from_url Memory.out "https://example.com/pic.png"
         default_options Memory.start)
  = Ok (Some (parse_path "resized_images/pic.png"))
  /\ fst (process_from_url Memory.out "https://example.com/missing"
            default_options Memory.start) = Ok None
  /\ @process_from_url plain_output Memory.out "https://example.com/missing"
       default_options plain_start
     = (Raise UnicodeEncodeError,
        @Build_state plain_output
          [MsgDownloading "https://example.com/missing"]
          ([] : list Memory.saved))
  /\ @process_from_urls plain_output Memory.out
       ["https://example.com/missing"; "https://example.com/a.jpg"]
       default_options plain_start
     = (Raise UnicodeEncodeError,
        @Build_state plain_output
          [MsgDownloading "https://example.com/missing"; MsgItem 1 2;
           MsgBatchStart 2]
          ([] : list Memory.saved))
  /\ fst (@process_from_url unnamed_output Memory.out
            "https://example.com/a.jpg" default_options unnamed_start)
     = Ok None
  /\ List.length
       (env (snd (@process_from_url unnamed_output Memory.out
                    "https://example.com/a.jpg" default_options
                    unnamed_start))) = 1%nat.
Proof.
  pose proof (proj1 (process_from_url_contains_failures Memory.out
                       "https://example.com/pic.png" default_options
                       Memory.start []) memory_prints_all) as [Hok _].
  pose proof (proj1 (process_from_url_contains_failures Memory.out
                       "https://example.com/missing" default_options
                       Memory.start []) memory_prints_all)
    as [_ [Hfetch _]].
  pose proof (proj1 (proj2 (@process_from_url_contains_failures plain_output
                              Memory.out "https://example.com/missing"
                              default_options plain_start [])))
    as Hescape.
  pose proof (proj2 (proj2 (proj2 (proj2
                (@process_from_url_contains_failures unnamed_output
                   Memory.out "https://example.com/a.jpg" default_options
                   unnamed_start [])))))
    as Hsaved.
  split; [|split; [|split; [|split]]].
  - exact (proj1 (Hok "https://example.com/pic.png" []
                    {| Memory.mode := "RGBA"; Memory.dims := (1000, 500)%Z;
                       Memory.white := false |}
                    (1000, 500)%Z
                    {| Memory.mode := "RGBA"; Memory.dims := (1000, 500)%Z;
                       Memory.white := false |}
                    {| Memory.mode := "RGBA"; Memory.dims := (1000, 500)%Z;
                       Memory.white := false |}
                    _ eq_refl eq_refl eq_refl eq_refl eq_refl eq_refl)).
  - exact (Hfetch RequestException [] eq_refl).
  - exact (Hescape RequestException
             (@Build_state plain_output
                [MsgDownloading "https://example.com/missing"]
                ([] : list Memory.saved))
             UnicodeEncodeError eq_refl eq_refl).
  - reflexivity.
  - assert (H := Hsaved "https://example.com/a.jpg" []
                   {| Memory.mode := "RGB"; Memory.dims := (1000, 500)%Z;
                      Memory.white := false |}
                   (1000, 500)%Z
                   {| Memory.mode := "RGB"; Memory.dims := (1000, 500)%Z;
                      Memory.white := false |}
                   {| Memory.mode := "RGB"; Memory.dims := (1000, 500)%Z;
                      Memory.white := false |}
                   _ UnicodeEncodeError
                   eq_refl eq_refl eq_refl eq_refl eq_refl eq_refl eq_refl
                   eq_refl eq_refl eq_refl eq_refl).
    split; [exact (proj1 H)|]. rewrite (proj2 H). reflexivity.
Defined.

Lemma flatten_only_rgba_to_jpeg_witness :
  env (snd (process_from_url Memory.out "https://example.com/pic.png"
              jpeg_options Memory.start))
  = [({| Memory.mode := "RGB"; Memory.dims := (800, 400)%Z;
         Memory.white := true |},
      parse_path "resized_images/holiday.jpg",
      {| kw_quality := Some 90%Z; kw_optimize := true |})]
  /\ Memory.has_alpha_band "RGBA" = true
  /\ url_output_filename "https://example.com/pic" None None = "pic" ++ ".jpg"
  /\ Memory.is_jpeg_name "pic.jpg" = true
  /\ process_from_url Memory.out "https://example.com/pic" default_options
       Memory.start
     = (Ok None,
        @Build_state Memory.backend
          [MsgProcessFailed OSError; MsgNewSize (1000, 500)%Z;
           MsgOriginalSize (1000, 500)%Z;
           MsgDownloading "https://example.com/pic"]
          [({| Memory.mode := "RGBA"; Memory.dims := (1000, 500)%Z;
               Memory.white := false |},
            parse_path "resized_images/pic.jpg",
            {| kw_quality := Some 95%Z; kw_optimize := true |})])
  /\ Memory.has_alpha_band "LA" = true
  /\ @image_to_save Memory.backend
       ({| Memory.mode := "LA"; Memory.dims := (800, 400)%Z;
           Memory.white := false |} : Memory.picture) (Some "jpg")
     = Ok ({| Memory.mode := "LA"; Memory.dims := (800, 400)%Z;
              Memory.white := false |} : Memory.picture).
Proof.
  pose proof (flatten_only_rgba_to_jpeg Memory.out Memory.out
                "https://example.com/pic.png" "pic.png" jpeg_options
                Memory.start 0) as [_ [Hurl _]].
  pose proof (flatten_only_rgba_to_jpeg Memory.out Memory.out
                "https://example.com/pic" "pic" default_options
                Memory.start 0) as [_ [_ [_ [Hmiss _]]]].
  pose proof (flatten_only_rgba_to_jpeg Memory.out Memory.out
                "https://example.com/pic" "pic"
                {| opt_width := None; opt_height := None; opt_scale := None;
                   opt_maintain_aspect := true;
                   opt_output_format := Some "jpg";
                   opt_quality := 95; opt_filename := None |}
                Memory.start 0) as [_ [_ [_ [_ Hother]]]].
  split; [|split; [|split; [|split; [|split; [|split]]]]].
  - exact (Hurl "https://example.com/pic.png" []
             {| Memory.mode := "RGBA"; Memory.dims := (1000, 500)%Z;
                Memory.white := false |}
             (800, 400)%Z
             {| Memory.mode := "RGBA"; Memory.dims := (800, 400)%Z;
                Memory.white := false |}
             eq_refl eq_refl eq_refl eq_refl eq_refl eq_refl eq_refl).
  - reflexivity.
  - refine (proj2 (Hmiss {| Memory.mode := "RGBA";
                            Memory.dims := (1000, 500)%Z;
                            Memory.white := false |}
                     eq_refl eq_refl _ eq_refl eq_refl)).
    discriminate.
  - reflexivity.
  - reflexivity.
  - reflexivity.
  - refine (Hother {| Memory.mode := "LA"; Memory.dims := (800, 400)%Z;
                      Memory.white := false |} _).
    discriminate.
Defined.

Lemma url_format_replaces_extension_witness :
  url_output_filename "https://example.com/pic.png"
    (opt_filename jpeg_options) (opt_output_format jpeg_options)
  = "holiday.jpg"
  /\ env (snd (process_from_url Memory.out "https://example.com/pic.png"
                 jpeg_options Memory.start))
     = [({| Memory.mode := "RGB"; Memory.dims := (800, 400)%Z;
            Memory.white := true |},
         parse_path "resized_images/holiday.jpg",
         {| kw_quality := Some 90%Z; kw_optimize := true |})]
  /\ fst (process_from_url Memory.out "https://example.com/pic.png"
            jpeg_options Memory.start)
     = Ok (Some (parse_path "resized_images/holiday.jpg")).
Proof.
  assert (Hne : "JPG" <> "") by discriminate.
  pose proof (url_format_replaces_extension Memory.out
                "https://example.com/pic.png" jpeg_options Memory.start
                "JPG" eq_refl Hne) as [_ [_ [Hsave [_ Hext]]]].
  pose proof (Hsave "https://example.com/pic.png" []
                {| Memory.mode := "RGBA"; Memory.dims := (1000, 500)%Z;
                   Memory.white := false |}
                (800, 400)%Z
                {| Memory.mode := "RGBA"; Memory.dims := (800, 400)%Z;
                   Memory.white := false |}
                {| Memory.mode := "RGB"; Memory.dims := (800, 400)%Z;
                   Memory.white := true |}
                eq_refl eq_refl eq_refl eq_refl eq_refl eq_refl eq_refl
                eq_refl) as [Henv Hret].
  split; [|split].
  - refine (Hext "holiday" "png" eq_refl _ _ eq_refl eq_refl eq_refl);
      discriminate.
  - exact Henv.
  - exact (Hret _ eq_refl eq_refl).
Defined.




Lemma url_failures_are_reported_witness :
  process_from_url Memory.out "https://example.com/missing" default_options
    Memory.start
  = (Ok None,
     @Build_state Memory.backend
       [MsgDownloadFailed RequestException;
        MsgDownloading "https://example.com/missing"]
       ([] : list Memory.saved))
  /\ process_from_url Memory.out "https://example.com/pic.png" nan_options
       Memory.start
     = (Ok None,
        @Build_state Memory.backend
          [MsgProcessFailed ValueError; MsgOriginalSize (1000, 500)%Z;
           MsgDownloading "https://example.com/pic.png"]
          ([] : list Memory.saved))
  /\ @process_from_url plain_output Memory.out "https://example.com/pic.png"
       nan_options plain_start
     = (Raise UnicodeEncodeError,
        @Build_state plain_output
          [MsgOriginalSize (1000, 500)%Z;
           MsgDownloading "https://example.com/pic.png"]
          ([] : list Memory.saved)).
Proof.
  split; [|split].
  - exact (proj1 (url_failures_are_reported Memory.out
                    "https://example.com/missing" default_options
                    Memory.start) [] eq_refl eq_refl).
  - exact (proj2 (url_failures_are_reported Memory.out
                    "https://example.com/pic.png" nan_options Memory.start)
             "https://example.com/pic.png" []
             {| Memory.mode := "RGBA"; Memory.dims := (1000, 500)%Z;
                Memory.white := false |}
             ValueError eq_refl eq_refl eq_refl eq_refl eq_refl).
  - exact (proj2 (@url_failures_are_reported plain_output Memory.out
                    "https://example.com/pic.png" nan_options plain_start)
             "https://example.com/pic.png" []
             {| Memory.mode := "RGBA"; Memory.dims := (1000, 500)%Z;
                Memory.white := false |}
             ValueError eq_refl eq_refl eq_refl eq_refl eq_refl).
Defined.


Lemma urls_report_matches_tally_witness :
  exists (n : nat) (st' : state),
    process_from_urls Memory.out
      ["https://example.com/missing"; "https://example.com/a.jpg"]
      default_options Memory.start = (Ok n, st')
    /\ (n <= 2)%nat
    /\ saved_lines (console st') = (0 + n)%nat
    /\ (failure_lines (console st') + n = 0 + 2)%nat.
Proof.
  exact (urls_report_matches_tally Memory.out
           ["https://example.com/missing"; "https://example.com/a.jpg"]
           default_options Memory.start memory_prints_all).
Defined.

Lemma folder_report_matches_tally_witness :
  exists (n : nat) (st' : state),
    process_from_folder true Memory.out (parse_path "photos") jpeg_options
      Memory.start = (Ok n, st')
    /\ (n <= 2)%nat
    /\ saved_lines (console st') = (0 + n)%nat
    /\ (failure_lines (console st') + n = 0 + 2)%nat.
Proof.
  exact (folder_report_matches_tally true Memory.out (parse_path "photos")
           jpeg_options Memory.start memory_prints_all).
Defined.

Lemma folder_without_images_witness :
  @process_from_folder (backend_with ["notes.txt"; "README"; "jpg"]) false
    Memory.out (parse_path "photos") default_options
    (@Build_state (backend_with ["notes.txt"; "README"; "jpg"]) []
       ([] : list Memory.saved))
  = (Ok O, @Build_state (backend_with ["notes.txt"; "README"; "jpg"])
             [MsgNoImages (parse_path "photos")] ([] : list Memory.saved)).
Proof.
  refine (@folder_without_images (backend_with ["notes.txt"; "README"; "jpg"])
            false Memory.out (parse_path "photos") default_options
            (@Build_state (backend_with ["notes.txt"; "README"; "jpg"]) []
               ([] : list Memory.saved)) (fun _ => eq_refl) _).
  intros name [<-|[<-|[<-|[]]]]; reflexivity.
Defined.

End InMemory.
